(** * datautils.structures.mp.lord: the [Lord] supervisor

    A shallow embedding of [class Lord] (src/datautils/structures/mp/lord.py)
    and the properties its specification states about it.

    The [Lord] lives in the parent process.  It owns a process handle and one
    end of a duplex pipe, mirrors the state the worker (the "serf") reports,
    keeps a table of callbacks and drains one message per [update].

    Python objects are modelled by the fragment [pyval]; a method is a function
    from the [Lord] before the call to an [outcome] that carries the [Lord]
    after it, so that what a call changed before raising stays visible.

    The serf runs in another process.  What the [Lord] can see of it is what
    it finds on the pipe and what [is_alive()] answers, so the serf is given
    by the messages it writes, in order, and by the number of times its
    process still answers that it is alive.  Time is left out: [poll] finds a
    message exactly when one is waiting.  The results hold for every such
    serf. *)

From Stdlib Require Import ZArith List String Bool Lia Sorted.
From Stdlib Require Import Ascii DecimalString.
Import ListNotations.

Set Implicit Arguments.
Set Warnings "-register-all".

(** ** Python values *)

(** Hashable atoms, used as dictionary keys.  [True] and [False] hash and
    compare like [1] and [0], so they are the keys [KInt 1] and [KInt 0]. *)
Inductive pykey : Type :=
| KNone
| KInt (z : Z)
| KStr (s : string)
| KFunc (n : nat).

(** The fragment of Python objects the [Lord] handles: [None], booleans,
    integers, strings, lists, dictionaries (in insertion order, one entry per
    key) and callables.  A callable is opaque and known by a number. *)
Inductive pyval : Type :=
| PNone
| PBool (b : bool)
| PInt (z : Z)
| PStr (s : string)
| PList (l : list pyval)
| PDict (d : list (pykey * pyval))
| PFunc (n : nat).

Definition pydict : Type := list (pykey * pyval).
Definition pyargs : Type := list pyval.
Definition pykwargs : Type := list (string * pyval).

Definition key_eqb (a b : pykey) : bool :=
  match a, b with
  | KNone, KNone => true
  | KInt x, KInt y => Z.eqb x y
  | KStr x, KStr y => String.eqb x y
  | KFunc x, KFunc y => Nat.eqb x y
  | _, _ => false
  end.

(** [hash(v)]: lists and dictionaries are unhashable. *)
Definition to_key (v : pyval) : option pykey :=
  match v with
  | PNone => Some KNone
  | PBool b => Some (KInt (Z.b2z b))
  | PInt z => Some (KInt z)
  | PStr s => Some (KStr s)
  | PFunc n => Some (KFunc n)
  | PList _ | PDict _ => None
  end.

(** Python's [==] on the fragment.  Dictionaries compare as mappings, whatever
    the order of their entries. *)
Fixpoint py_eq (a b : pyval) {struct a} : bool :=
  match a, b with
  | PNone, PNone => true
  | PBool x, PBool y => Bool.eqb x y
  | PBool x, PInt y => Z.eqb (Z.b2z x) y
  | PInt x, PBool y => Z.eqb x (Z.b2z y)
  | PInt x, PInt y => Z.eqb x y
  | PStr x, PStr y => String.eqb x y
  | PFunc x, PFunc y => Nat.eqb x y
  | PList x, PList y =>
      (fix all2 (x : list pyval) (y : list pyval) {struct x} : bool :=
         match x, y with
         | [], [] => true
         | v :: x', w :: y' => py_eq v w && all2 x' y'
         | _, _ => false
         end) x y
  | PDict x, PDict y =>
      Nat.eqb (List.length x) (List.length y) &&
      (fix each (x : list (pykey * pyval)) {struct x} : bool :=
         match x with
         | [] => true
         | (k, v) :: x' =>
             (fix find (y : list (pykey * pyval)) {struct y} : bool :=
                match y with
                | [] => false
                | (k', w) :: y' => if key_eqb k k' then py_eq v w else find y'
                end) y && each x'
         end) x
  | _, _ => false
  end.

(** Truth value of an object, as [if update:] takes it. *)
Definition py_truthy (v : pyval) : bool :=
  match v with
  | PNone => false
  | PBool b => b
  | PInt z => negb (Z.eqb z 0)
  | PStr s => negb (String.eqb s EmptyString)
  | PList l => negb (Nat.eqb (List.length l) 0)
  | PDict d => negb (Nat.eqb (List.length d) 0)
  | PFunc _ => true
  end.

(** [v is None] *)
Definition is_none (v : pyval) : bool :=
  match v with PNone => true | _ => false end.

(** ** Exceptions *)

(** The built-in exceptions the methods can raise, [serf.SerfError], and the
    exceptions of the pipe.  The serf module is not part of the sources:
    [SerfError] stands for the exception [Lord.error] builds from the
    arguments of an error signal.  [PicklingError] and [BrokenPipeError] are
    what [Connection.send] raises for an object that cannot be pickled and for
    a peer that is closed, [EOFError] what [Connection.recv] raises when the
    peer is closed and nothing is left to read. *)
Inductive exn : Type :=
| TypeError
| ValueError
| KeyError
| IndexError
| AttributeError
| AssertionError
| SerfError (args : pyargs) (kwargs : pykwargs)
| PicklingError
| BrokenPipeError
| EOFError.

(** ** Dictionaries and item access *)

Fixpoint dict_get (k : pykey) (d : pydict) : option pyval :=
  match d with
  | [] => None
  | (k', v) :: d' => if key_eqb k k' then Some v else dict_get k d'
  end.

Definition dict_mem (k : pykey) (d : pydict) : bool :=
  match dict_get k d with Some _ => true | None => false end.

(** [d[k] = v]: an existing key keeps its place, a new one goes last. *)
Fixpoint dict_set (k : pykey) (v : pyval) (d : pydict) : pydict :=
  match d with
  | [] => [(k, v)]
  | (k', w) :: d' =>
      if key_eqb k k' then (k', v) :: d' else (k', w) :: dict_set k v d'
  end.

Fixpoint dict_del (k : pykey) (d : pydict) : pydict :=
  match d with
  | [] => []
  | (k', w) :: d' => if key_eqb k k' then d' else (k', w) :: dict_del k d'
  end.

Definition dict_keys (d : pydict) : list pykey := map fst d.
Definition dict_values (d : pydict) : list pyval := map snd d.

(** A list index: an integer (or boolean), counted from the end when
    negative; [None] when out of range. *)
Definition list_index (i : Z) (len : nat) : option nat :=
  let n := Z.of_nat len in
  if (0 <=? i)%Z && (i <? n)%Z then Some (Z.to_nat i)
  else if (i <? 0)%Z && (- n <=? i)%Z then Some (Z.to_nat (n + i))
  else None.

Fixpoint list_set (i : nat) (v : pyval) (l : list pyval) : list pyval :=
  match l, i with
  | [], _ => []
  | _ :: l', O => v :: l'
  | w :: l', S i' => w :: list_set i' v l'
  end.

Fixpoint list_del (i : nat) (l : list pyval) : list pyval :=
  match l, i with
  | [], _ => []
  | _ :: l', O => l'
  | w :: l', S i' => w :: list_del i' l'
  end.

Definition as_index (k : pyval) : option Z :=
  match k with
  | PInt z => Some z
  | PBool b => Some (Z.b2z b)
  | _ => None
  end.

(** [container[k] = v] *)
Definition setitem (container k v : pyval) : exn + pyval :=
  match container with
  | PDict d =>
      match to_key k with
      | Some key => inr (PDict (dict_set key v d))
      | None => inl TypeError
      end
  | PList l =>
      match as_index k with
      | Some i =>
          match list_index i (List.length l) with
          | Some n => inr (PList (list_set n v l))
          | None => inl IndexError
          end
      | None => inl TypeError
      end
  | _ => inl TypeError
  end.

(** [del container[k]] *)
Definition delitem (container k : pyval) : exn + pyval :=
  match container with
  | PDict d =>
      match to_key k with
      | Some key =>
          if dict_mem key d then inr (PDict (dict_del key d)) else inl KeyError
      | None => inl TypeError
      end
  | PList l =>
      match as_index k with
      | Some i =>
          match list_index i (List.length l) with
          | Some n => inr (PList (list_del n l))
          | None => inl IndexError
          end
      | None => inl TypeError
      end
  | _ => inl TypeError
  end.

(** ** The Lord and what surrounds it *)

(** A message on the pipe: [(attr, args, kwargs)]. *)
Definition message : Type := (string * pyargs * pykwargs)%type.

(** The handle of the spawned process.  The serf runs on its own; all the
    [Lord] sees of it is the answer of [is_alive()].  [lifetime] is the number
    of further [is_alive()] calls answered [True]; [None] is a process that
    never exits. *)
Record Process : Type := mkProcess { lifetime : option nat }.

(** The Lord's end of the pipe: [outbox] is what was sent to the serf, oldest
    first; [inbox] is what the serf wrote and the Lord has not read yet,
    oldest first.  [poll] answers [True] while [inbox] is not empty. *)
Record Pipe : Type := mkPipe { outbox : list message; inbox : list message }.

(** One call of a callable: which one, and with what. *)
Definition call : Type := (nat * pyargs * pykwargs)%type.

(** The attributes [__init__] sets, [pipe] ([None] before the first [start],
    when the attribute does not exist yet), and [calls], the trace of the
    callables invoked so far, oldest first. *)
Record Lord : Type := mkLord {
  _state : pyval;
  process : option Process;
  _cbindex : Z;
  callbacks : pydict;
  pipe : option Pipe;
  calls : list call
}.

(** [Lord.__init__] *)
Definition init : Lord :=
  {| _state := PNone; process := None; _cbindex := 0%Z; callbacks := [];
     pipe := None; calls := [] |}.

Definition set_state (v : pyval) (s : Lord) : Lord :=
  {| _state := v; process := process s; _cbindex := _cbindex s;
     callbacks := callbacks s; pipe := pipe s; calls := calls s |}.

Definition set_process (p : option Process) (s : Lord) : Lord :=
  {| _state := _state s; process := p; _cbindex := _cbindex s;
     callbacks := callbacks s; pipe := pipe s; calls := calls s |}.

Definition set_cbindex (i : Z) (s : Lord) : Lord :=
  {| _state := _state s; process := process s; _cbindex := i;
     callbacks := callbacks s; pipe := pipe s; calls := calls s |}.

Definition set_callbacks (d : pydict) (s : Lord) : Lord :=
  {| _state := _state s; process := process s; _cbindex := _cbindex s;
     callbacks := d; pipe := pipe s; calls := calls s |}.

Definition set_pipe (p : option Pipe) (s : Lord) : Lord :=
  {| _state := _state s; process := process s; _cbindex := _cbindex s;
     callbacks := callbacks s; pipe := p; calls := calls s |}.

Definition add_call (c : call) (s : Lord) : Lord :=
  {| _state := _state s; process := process s; _cbindex := _cbindex s;
     callbacks := callbacks s; pipe := pipe s; calls := calls s ++ [c] |}.

(** Number of messages waiting to be read. *)
Definition pending (s : Lord) : nat :=
  match pipe s with
  | Some p => List.length (inbox p)
  | None => O
  end.

(** What a call does: it returns a value, or raises, both with the [Lord] as
    the call left it; or it never returns ([Hang]); or it leaves the modelled
    fragment ([Beyond]).  [OutOfFuel] belongs to the loops written with a
    bound below and is shown never to come out of a method. *)
Inductive outcome (A : Type) : Type :=
| Return (a : A) (s : Lord)
| Raise (e : exn) (s : Lord)
| Hang
| Beyond
| OutOfFuel.

Arguments Return {A} a s.
Arguments Raise {A} e s.
Arguments Hang {A}.
Arguments Beyond {A}.
Arguments OutOfFuel {A}.

Definition bind {A B : Type} (m : outcome A) (k : A -> Lord -> outcome B)
  : outcome B :=
  match m with
  | Return a s => k a s
  | Raise e s => Raise e s
  | Hang => Hang
  | Beyond => Beyond
  | OutOfFuel => OutOfFuel
  end.

Notation "x <- m ;; k" := (bind m (fun x => k))
  (at level 61, m at next level, right associativity).

(** A call whose value is dropped. *)
Definition discard {A : Type} (m : outcome A) : outcome unit :=
  _ <- m ;; Return tt.

(** The [Lord] a call leaves behind, when it comes back at all. *)
Definition after {A : Type} (m : outcome A) : option Lord :=
  match m with
  | Return _ s => Some s
  | Raise _ s => Some s
  | _ => None
  end.

(** ** Calling *)

(** [f( *args, **kwargs)] for an object [f].  A callable is opaque: the call is
    recorded in [calls] and taken to return without touching the [Lord].
    Anything else is not callable. *)
Definition call_value (f : pyval) (args : pyargs) (kwargs : pykwargs)
  (s : Lord) : outcome unit :=
  match f with
  | PFunc n => Return tt (add_call (n, args, kwargs) s)
  | _ => Raise TypeError s
  end.

Fixpoint kw_get (k : string) (kw : pykwargs) : option pyval :=
  match kw with
  | [] => None
  | (k', v) :: kw' => if String.eqb k k' then Some v else kw_get k kw'
  end.

Fixpoint kw_del (k : string) (kw : pykwargs) : pykwargs :=
  match kw with
  | [] => []
  | (k', v) :: kw' => if String.eqb k k' then kw' else (k', v) :: kw_del k kw'
  end.

(** Binding of [*args, **kwargs] to named parameters, each with its default
    if it has one.  [None] is the [TypeError] of a call that does not fit:
    too many positionals, a parameter given twice, an unknown keyword, a
    parameter without default left out. *)
Fixpoint bind_params (params : list (string * option pyval))
  (args : pyargs) (kwargs : pykwargs) : option (list pyval) :=
  match params with
  | [] =>
      match args, kwargs with
      | [], [] => Some []
      | _, _ => None
      end
  | (name, default) :: params' =>
      match args with
      | a :: args' =>
          match kw_get name kwargs with
          | Some _ => None
          | None => option_map (cons a) (bind_params params' args' kwargs)
          end
      | [] =>
          match kw_get name kwargs with
          | Some v =>
              option_map (cons v) (bind_params params' [] (kw_del name kwargs))
          | None =>
              match default with
              | Some d => option_map (cons d) (bind_params params' [] kwargs)
              | None => None
              end
          end
      end
  end.

(** ** The callback table: [attach] and [detatch] *)

(** First loop of [attach]: every entry whose value differs from [attr] gets
    a fresh empty dictionary. *)
Definition reset_unequal (attr : pyval) (cbs : pydict) : pydict :=
  map (fun kv : pykey * pyval =>
         if negb (py_eq (snd kv) attr) then (fst kv, PDict []) else kv) cbs.

(** Second loop of [attach]: under every entry whose value equals [attr],
    store [func] at [cbid].  The loop stops at the first item assignment that
    raises; what was stored before stays. *)
Fixpoint store_equal (attr : pyval) (cbid : Z) (func : pyval) (cbs : pydict)
  : pydict * option exn :=
  match cbs with
  | [] => ([], None)
  | (k, v) :: rest =>
      if py_eq v attr then
        match setitem v (PInt cbid) func with
        | inl e => (cbs, Some e)
        | inr v' =>
            let (rest', r) := store_equal attr cbid func rest in
            ((k, v') :: rest', r)
        end
      else
        let (rest', r) := store_equal attr cbid func rest in
        ((k, v) :: rest', r)
  end.

(** [Lord.attach(attr, func)], for an event name [attr] that is a string. *)
Definition attach (attr : string) (func : pyval) (s : Lord) : outcome Z :=
  let s1 := set_callbacks (reset_unequal (PStr attr) (callbacks s)) s in
  let cbid := _cbindex s1 in
  let s2 := set_cbindex (cbid + 1)%Z s1 in
  match store_equal (PStr attr) cbid func (callbacks s2) with
  | (cbs, Some e) => Raise e (set_callbacks cbs s2)
  | (cbs, None) => Return cbid (set_callbacks cbs s2)
  end.

(** The loop of [detatch]: the first entry whose value equals [cbid] has the
    item [cbid] deleted from that value.  [None] when no entry matches. *)
Fixpoint delete_equal (cbid : pyval) (cbs : pydict) : option (exn + pydict) :=
  match cbs with
  | [] => None
  | (k, v) :: rest =>
      if py_eq v cbid then
        match delitem v cbid with
        | inl e => Some (inl e)
        | inr v' => Some (inr ((k, v') :: rest))
        end
      else
        match delete_equal cbid rest with
        | Some (inr rest') => Some (inr ((k, v) :: rest'))
        | other => other
        end
  end.

(** [Lord.detatch(cbid)] *)
Definition detatch (cbid : pyval) (s : Lord) : outcome pyval :=
  match delete_equal cbid (callbacks s) with
  | Some (inr cbs) => Return PNone (set_callbacks cbs s)
  | Some (inl e) => Raise e s
  | None => Raise ValueError s
  end.

(** ** [state], [error], [send] *)

(** The body of [Lord.state(new_state=None, update=False)], with
    [self.update()] as [self_update]. *)
Definition state_with (self_update : Lord -> outcome unit)
  (new_state update : pyval) (s : Lord) : outcome pyval :=
  if is_none new_state then
    if py_truthy update then
      _ <- self_update s ;; fun s' => Return (_state s') s'
    else Return (_state s) s
  else Return PNone (set_state new_state s).

(** [Lord.error( *args, **kwargs)]: raises [serf.SerfError] built from the
    arguments. *)
Definition error (args : pyargs) (kwargs : pykwargs) (s : Lord)
  : outcome unit :=
  Raise (SerfError args kwargs) s.

(** [Lord.send(attr, *args, **kwargs)], on a pipe that takes every message;
    [send_with] below is the same method on a pipe that can refuse one. *)
Definition send (attr : pyval) (args : pyargs) (kwargs : pykwargs) (s : Lord)
  : outcome unit :=
  match attr with
  | PStr a =>
      match pipe s with
      | None => Raise AttributeError s
      | Some p =>
          Return tt
            (set_pipe
               (Some {| outbox := outbox p ++ [(a, args, kwargs)];
                        inbox := inbox p |}) s)
      end
  | _ => Raise AssertionError s
  end.

(** ** [update] *)

(** What [getattr(self, attr)] finds on a [Lord]. *)
Inductive member : Type :=
| Method_attach | Method_detatch | Method_state | Method_error | Method_send
| Method_start | Method_stop | Method_update
| Attr_state | Attr_process | Attr_cbindex | Attr_callbacks | Attr_pipe
| Special
| Absent.

Definition lookup_member (attr : string) : member :=
  if String.eqb attr "attach" then Method_attach
  else if String.eqb attr "detatch" then Method_detatch
  else if String.eqb attr "state" then Method_state
  else if String.eqb attr "error" then Method_error
  else if String.eqb attr "send" then Method_send
  else if String.eqb attr "start" then Method_start
  else if String.eqb attr "stop" then Method_stop
  else if String.eqb attr "update" then Method_update
  else if String.eqb attr "_state" then Attr_state
  else if String.eqb attr "process" then Attr_process
  else if String.eqb attr "_cbindex" then Attr_cbindex
  else if String.eqb attr "callbacks" then Attr_callbacks
  else if String.eqb attr "pipe" then Attr_pipe
  else if String.prefix "__" attr then Special
  else Absent.

Definition state_params : list (string * option pyval) :=
  [("new_state", Some PNone); ("update", Some (PBool false))]%string.

Definition attach_params : list (string * option pyval) :=
  [("attr", None); ("func", None)]%string.

Definition detatch_params : list (string * option pyval) :=
  [("cbid", None)]%string.

(** [getattr(self, attr)( *args, **kwargs)].  A message that names [start],
    [stop], [update] or a double-underscore attribute, or that calls [attach]
    with an event name that is not a string, is outside the fragment. *)
Definition call_attr (self_update : Lord -> outcome unit) (attr : string)
  (args : pyargs) (kwargs : pykwargs) (s : Lord) : outcome unit :=
  match lookup_member attr with
  | Method_state =>
      match bind_params state_params args kwargs with
      | Some [new_state; upd] => discard (state_with self_update new_state upd s)
      | _ => Raise TypeError s
      end
  | Method_error => error args kwargs s
  | Method_attach =>
      match bind_params attach_params args kwargs with
      | Some [PStr a; func] => discard (attach a func s)
      | Some [_; _] => Beyond
      | _ => Raise TypeError s
      end
  | Method_detatch =>
      match bind_params detatch_params args kwargs with
      | Some [cbid] => discard (detatch cbid s)
      | _ => Raise TypeError s
      end
  | Method_send =>
      match args with
      | a :: args' =>
          match kw_get "attr" kwargs with
          | Some _ => Raise TypeError s
          | None => send a args' kwargs s
          end
      | [] =>
          match kw_get "attr" kwargs with
          | Some a => send a [] (kw_del "attr" kwargs) s
          | None => Raise TypeError s
          end
      end
  | Method_start | Method_stop | Method_update | Special => Beyond
  | Attr_state => call_value (_state s) args kwargs s
  | Attr_process | Attr_cbindex | Attr_callbacks => Raise TypeError s
  | Attr_pipe =>
      match pipe s with
      | Some _ => Raise TypeError s
      | None => Raise AttributeError s
      end
  | Absent => Raise AttributeError s
  end.

(** [for cb in ...: cb( *args, **kwargs)] *)
Fixpoint call_each (cbs : list pyval) (args : pyargs) (kwargs : pykwargs)
  (s : Lord) : outcome unit :=
  match cbs with
  | [] => Return tt s
  | cb :: rest =>
      _ <- call_value cb args kwargs s ;; call_each rest args kwargs
  end.

(** The [if attr in self.callbacks:] block of [update]. *)
Definition run_callbacks (attr : string) (args : pyargs) (kwargs : pykwargs)
  (s : Lord) : outcome unit :=
  match dict_get (KStr attr) (callbacks s) with
  | None => Return tt s
  | Some cb_group =>
      match cb_group with
      | PDict d => call_each (dict_values d) args kwargs s
      | PList l => call_each l args kwargs s
      | PFunc _ => call_value cb_group args kwargs s
      | _ => Return tt s
      end
  end.

(** Modelled from the spec: [serf.parse_message], whose module is not part of
    the sources.  Every unit on the pipe is a Message triple
    [(operation, args, kwargs)], and that triple is what it hands back. *)
Definition parse_message (msg : message) : string * pyargs * pykwargs := msg.

(** [Lord.update(timeout)].  Time is not modelled: [poll] is true exactly when
    a message waits, and the pipe never shows its end ([recv] raising
    [EOFError] after the serf has exited is left to [stop_with] below, which
    takes any [update]).  The bound [n] covers the calls of [self.update()]
    that [state(update=True)] makes from inside a message. *)
Fixpoint update_fuel (n : nat) (s : Lord) : outcome unit :=
  match n with
  | O => OutOfFuel
  | S n' =>
      match pipe s with
      | None => Raise AttributeError s
      | Some p =>
          match inbox p with
          | [] => Return tt s
          | msg :: rest =>
              let s0 := set_pipe (Some {| outbox := outbox p; inbox := rest |}) s in
              let '(attr, args, kwargs) := parse_message msg in
              _ <- call_attr (update_fuel n') attr args kwargs s0 ;;
              run_callbacks attr args kwargs
          end
      end
  end.

Definition update (s : Lord) : outcome unit :=
  update_fuel (S (pending s)) s.

(** [Lord.state(new_state=None, update=False)] *)
Definition state (new_state upd : pyval) (s : Lord) : outcome pyval :=
  state_with update new_state upd s.

(** ** [start] and [stop] *)

(** [process.is_alive()], with the handle after the question. *)
Definition is_alive (p : Process) : bool * Process :=
  match lifetime p with
  | None => (true, p)
  | Some O => (false, p)
  | Some (S k) => (true, {| lifetime := Some k |})
  end.

(** What [serf.run_serf(serf_class, serf_pipe, args, kwargs)] amounts to for
    the [Lord]: the messages the spawned serf writes to the pipe, in order,
    and how long the process stays alive.  The serf module is not part of the
    sources, so its behaviour is left open and the results below hold for
    every [Serf]. *)
Record Serf : Type := mkSerf { reports : list message; lifespan : option nat }.

(** [multiprocessing.Pipe()], [multiprocessing.Process(...)] and
    [process.start()].  The reports of the serf are on the pipe from the
    start: when each of them arrives is not modelled, so nothing below is
    said of which poll of a loop finds which report. *)
Definition spawn (serf_class : Serf) (s : Lord) : Lord :=
  set_process (Some {| lifetime := lifespan serf_class |})
    (set_pipe (Some {| outbox := []; inbox := reports serf_class |}) s).

(** [while self.state(update=True) is None: self.update()].  A round that
    starts with nothing to read and ends with no state changes nothing, and
    neither does any later one. *)
Fixpoint wait_for_state (n : nat) (s : Lord) : outcome unit :=
  match n with
  | O => OutOfFuel
  | S n' =>
      v <- state PNone (PBool true) s ;;
      fun s1 =>
        if is_none v then
          if Nat.eqb (pending s) 0 then Hang
          else _ <- update s1 ;; wait_for_state n'
        else Return tt s1
  end.

(** [Lord.start(serf_class, args, kwargs, wait)]; [serf_class] stands for the
    class together with its arguments. *)
Definition start (serf_class : Serf) (wait : bool) (s : Lord) : outcome unit :=
  let spawn_it (s : Lord) :=
    let s1 := spawn serf_class s in
    if wait then wait_for_state (S (pending s1)) s1 else Return tt s1 in
  match process s with
  | None => spawn_it s
  | Some p =>
      let (alive, p') := is_alive p in
      let s' := set_process (Some p') s in
      if alive then Return tt s' else spawn_it s'
  end.

(** [while self.process.is_alive(): self.update()].  With a process that
    never exits and nothing left to read, the loop spins for ever. *)
Fixpoint drain_until_dead (n : nat) (s : Lord) : outcome unit :=
  match n with
  | O => OutOfFuel
  | S n' =>
      match process s with
      | None => Raise AttributeError s
      | Some p =>
          let (alive, p') := is_alive p in
          let s1 := set_process (Some p') s in
          if alive then
            _ <- update s1 ;;
            fun s2 =>
              match lifetime p', pending s1 with
              | None, O => Hang
              | _, _ => drain_until_dead n' s2
              end
          else Return tt s1
      end
  end.

Definition drain_bound (s : Lord) : nat :=
  match process s with
  | Some {| lifetime := Some k |} => S k
  | _ => S (pending s)
  end.

(** [Lord.stop(wait)], on the pipe and the [update] above.
    [process.join()] comes after the process was seen dead and returns at
    once; [stop_with] below has it written out. *)
Definition stop (wait : bool) (s : Lord) : outcome unit :=
  match process s with
  | None => Return tt s
  | Some p =>
      let (alive, p') := is_alive p in
      if negb alive then Return tt (set_process None s)
      else
        _ <- send (PStr "exit") [] [] (set_process (Some p') s) ;;
        fun s1 =>
          if negb wait then Return tt s1
          else
            _ <- drain_until_dead (drain_bound s1) s1 ;;
            fun s2 => Return tt (set_process None s2)
  end.

(** ** [send] and [stop], with the pipe and [update] left open

    [send] and [update] above read and write a pipe that never fails.  The
    pipe of the code can: [Connection.send] raises, and writes nothing, for
    an object that cannot be pickled or a peer that is closed, and
    [Connection.recv] raises [EOFError] once the serf has exited and nothing
    is left to read.  Below, [Lord.send] and [Lord.stop] are written once
    more with [self.pipe.send] and [self.update] as arguments, so that what
    is proved of them holds whatever the pipe does. *)

(** [self.pipe.send(obj)]: the pipe with the object written, or the exception
    of a write that failed, which leaves the pipe as it was. *)
Definition channel : Type := Pipe -> message -> exn + Pipe.

(** The pipe of [send] above: every write succeeds. *)
Definition reliable_send : channel :=
  fun p m => inr {| outbox := outbox p ++ [m]; inbox := inbox p |}.

(** [Lord.send(attr, *args, **kwargs)]:
    [assert isinstance(attr, str)], then
    [self.pipe.send((attr, args, kwargs))]. *)
Definition send_with (pipe_send : channel) (attr : pyval) (args : pyargs)
  (kwargs : pykwargs) (s : Lord) : outcome unit :=
  match attr with
  | PStr a =>
      match pipe s with
      | None => Raise AttributeError s
      | Some p =>
          match pipe_send p (a, args, kwargs) with
          | inr p' => Return tt (set_pipe (Some p') s)
          | inl e => Raise e s
          end
      end
  | _ => Raise AssertionError s
  end.

(** [process.join()]: it returns once the process has exited, with the handle
    of an exited process; [None] is a join that never returns. *)
Definition join (p : Process) : option Process :=
  match lifetime p with
  | None => None
  | Some _ => Some {| lifetime := Some O |}
  end.

(** [while self.process.is_alive(): self.update()], for at most [n] answers
    of [is_alive()]. *)
Fixpoint drain_with (self_update : Lord -> outcome unit) (n : nat) (s : Lord)
  : outcome unit :=
  match n with
  | O => OutOfFuel
  | S n' =>
      match process s with
      | None => Raise AttributeError s
      | Some p =>
          let (alive, p') := is_alive p in
          let s1 := set_process (Some p') s in
          if alive then _ <- self_update s1 ;; drain_with self_update n'
          else Return tt s1
      end
  end.

(** [Lord.stop(wait)], line by line: the test of the handle, [is_alive()],
    [self.send('exit')], the draining loop, [self.process.join()] and
    [self.process = None]. *)
Definition stop_with (pipe_send : channel)
  (self_update : Lord -> outcome unit) (n : nat) (wait : bool) (s : Lord)
  : outcome unit :=
  match process s with
  | None => Return tt s
  | Some p =>
      let (alive, p') := is_alive p in
      if negb alive then Return tt (set_process None s)
      else
        _ <- send_with pipe_send (PStr "exit") [] [] (set_process (Some p') s) ;;
        fun s1 =>
          if negb wait then Return tt s1
          else
            _ <- drain_with self_update n s1 ;;
            fun s2 =>
              match process s2 with
              | None => Raise AttributeError s2
              | Some q =>
                  match join q with
                  | None => Hang
                  | Some q' =>
                      Return tt (set_process None (set_process (Some q') s2))
                  end
              end
  end.

(** * Vocabulary of the statements *)

(** Messages written to the serf so far. *)
Definition sent (s : Lord) : list message :=
  match pipe s with
  | Some p => outbox p
  | None => []
  end.

(** [frame s s']: from [s] to [s'] the table kept its keys, the id counter
    did not go down, a state that was not [None] is still not [None], the
    process handle is the same, nothing was added to read, and what was sent
    was only added to. *)
Record frame (s s' : Lord) : Prop := mkFrame {
  fr_keys : dict_keys (callbacks s') = dict_keys (callbacks s);
  fr_cbindex : (_cbindex s <= _cbindex s')%Z;
  fr_state : _state s <> PNone -> _state s' <> PNone;
  fr_process : process s' = process s;
  fr_pending : (pending s' <= pending s)%nat;
  fr_sent : exists more, sent s' = sent s ++ more
}.

(** A call made on [s] that, if it comes back, leaves a Lord framed by [s]. *)
Definition framed {A : Type} (m : outcome A) (s : Lord) : Prop :=
  forall s', after m = Some s' -> frame s s'.

(** Reading one message off the pipe. *)
Definition consume (s : Lord) : Lord :=
  match pipe s with
  | Some p => set_pipe (Some {| outbox := outbox p; inbox := tl (inbox p) |}) s
  | None => s
  end.

(** [grows s s']: the table kept its keys, the id counter did not go down,
    and a state that was not [None] is still not [None]. *)
Record grows (s s' : Lord) : Prop := mkGrows {
  gr_keys : dict_keys (callbacks s') = dict_keys (callbacks s);
  gr_cbindex : (_cbindex s <= _cbindex s')%Z;
  gr_state : _state s <> PNone -> _state s' <> PNone
}.

(** [only_calls s s']: [s'] is [s] with more calls on the trace and no other
    difference. *)
Record only_calls (s s' : Lord) : Prop := mkOnlyCalls {
  oc_state : _state s' = _state s;
  oc_process : process s' = process s;
  oc_cbindex : _cbindex s' = _cbindex s;
  oc_callbacks : callbacks s' = callbacks s;
  oc_pipe : pipe s' = pipe s;
  oc_calls : exists more, calls s' = calls s ++ more
}.

(** One call on the [Lord] from outside. *)
Inductive request : Type :=
| Attach (attr : string) (func : pyval)
| Detatch (cbid : pyval)
| State (new_state upd : pyval)
| Send (attr : pyval) (args : pyargs) (kwargs : pykwargs)
| Update
| Start (serf_class : Serf) (wait : bool)
| Stop (wait : bool).

(** The call a request stands for, with the value it hands to the caller. *)
Definition perform (r : request) (s : Lord) : outcome pyval :=
  match r with
  | Attach attr func => cbid <- attach attr func s ;; Return (PInt cbid)
  | Detatch cbid => detatch cbid s
  | State new_state upd => state new_state upd s
  | Send attr args kwargs => _ <- send attr args kwargs s ;; Return PNone
  | Update => _ <- update s ;; Return PNone
  | Start serf_class wait => _ <- start serf_class wait s ;; Return PNone
  | Stop wait => _ <- stop wait s ;; Return PNone
  end.

(** The ids the [attach] calls of a session returned, in order.  The caller
    goes on after an exception; the session ends with a call that does not
    come back. *)
Fixpoint attach_ids (rs : list request) (s : Lord) : list Z :=
  match rs with
  | [] => []
  | r :: rest =>
      match perform r s with
      | Return v s' =>
          match r, v with
          | Attach _ _, PInt cbid => cbid :: attach_ids rest s'
          | _, _ => attach_ids rest s'
          end
      | Raise _ s' => attach_ids rest s'
      | _ => []
      end
  end.

(** What C5 says of one report: after the [update] that drains it, [state()]
    returns the reported value. *)
Definition report_replaces_state (v : pyval) (s : Lord) : Prop :=
  exists s', after (update s) = Some s'
             /\ state PNone (PBool false) s' = Return v s'.

(** A call that completes without raising. *)
Definition completes (m : outcome unit) : Prop := exists s', m = Return tt s'.

(** Whether the Lord has a process that answers [is_alive()] with yes. *)
Definition has_live_process (s : Lord) : bool :=
  match process s with
  | Some p => fst (is_alive p)
  | None => false
  end.

(** The Lord after its process was asked [is_alive()]: the same Lord, with
    one answer less to come from the handle. *)
Definition asked (s : Lord) : Lord :=
  match process s with
  | Some p => set_process (Some (snd (is_alive p))) s
  | None => s
  end.

(** The reserved operation that asks the serf to exit. *)
Definition exit_message : message := ("exit"%string, [], []).

(** A handle whose process has exited. *)
Definition dead : Process := {| lifetime := Some O |}.

(** A state report as the serf writes it: [('state', (v,), {})]. *)
Definition state_report (m : message) : Prop :=
  exists v, m = ("state"%string, [v], []).

(** A Lord with an empty callback table and a pipe on which only state
    reports wait. *)
Definition quiet (s : Lord) : Prop :=
  callbacks s = []
  /\ exists p, pipe s = Some p /\ Forall state_report (inbox p).

(** The Lord a session leaves, when every call of it came back (returned or
    raised). *)
Fixpoint run_session (rs : list request) (s : Lord) : option Lord :=
  match rs with
  | [] => Some s
  | r :: rest =>
      match after (perform r s) with
      | Some s' => run_session rest s'
      | None => None
      end
  end.

(** The objects the callback block of [update] calls for a group: the values
    of a dictionary, the elements of a list, a callable itself, and nothing
    for anything else. *)
Definition subscribers (cb_group : pyval) : list pyval :=
  match cb_group with
  | PDict d => dict_values d
  | PList l => l
  | PFunc _ => [cb_group]
  | _ => []
  end.

(** [callable(v)] *)
Definition is_callable (v : pyval) : bool :=
  match v with
  | PFunc _ => true
  | _ => false
  end.

(** One call of each of the callables [ns], in order, all with the same
    arguments. *)
Definition calls_of (ns : list nat) (args : pyargs) (kwargs : pykwargs)
  : list call :=
  map (fun n => (n, args, kwargs)) ns.

(** Whether some value of the table equals [v]. *)
Definition stored (v : pyval) (cbs : pydict) : bool :=
  existsb (fun kv => py_eq (snd kv) v) cbs.

(** The Lord with the calls [cs] added to its trace. *)
Definition add_calls (cs : list call) (s : Lord) : Lord :=
  {| _state := _state s; process := process s; _cbindex := _cbindex s;
     callbacks := callbacks s; pipe := pipe s; calls := calls s ++ cs |}.

(** The Lord after [self.state(v)]: [v] is cached unless it is [None]. *)
Definition report (v : pyval) (s : Lord) : Lord :=
  if is_none v then s else set_state v s.

(** A state report that carries [None]. *)
Definition none_report : message := ("state"%string, [PNone], []).

(** A Lord with no cached state and an empty callback table, on whose pipe
    nothing waits but reports of [None]. *)
Definition silent (s : Lord) : Prop :=
  _state s = PNone
  /\ callbacks s = []
  /\ exists p, pipe s = Some p /\ Forall (eq none_report) (inbox p).


(** The names that make a message call back into the loops of the Lord:
    [start], [stop], [update] and the double-underscore attributes
    ([__del__] is [stop], [__init__] resets the Lord). *)
Definition reenters (attr : string) : bool :=
  match lookup_member attr with
  | Method_start | Method_stop | Method_update | Special => true
  | _ => false
  end.

(** [Lord.__del__] *)
Definition __del__ (s : Lord) : outcome unit := stop true s.

(** * datautils.structures.ionode: the pure parts

    [IONode] wraps a remote-object server, a configuration module and a
    logging module that are not part of the sources.  Two computations of the
    file depend on none of them: the name of the node class in
    [resolve_class] and the publishing address in [IONode.serve_forever].
    Strings are byte strings here, so both are modelled on ASCII text and
    answer [Unmodelled] on anything else. *)

Module IONode.

(** A value, an exception, or an input outside the modelled fragment. *)
Inductive result (A : Type) : Type :=
| Ok (a : A)
| Error (e : exn)
| Unmodelled.

Arguments Ok {A} a.
Arguments Error {A} e.
Arguments Unmodelled {A}.

Definition is_ascii (c : ascii) : bool := (nat_of_ascii c <? 128)%nat.

Definition is_lower (c : ascii) : bool :=
  ((97 <=? nat_of_ascii c) && (nat_of_ascii c <=? 122))%nat.

(** [c.upper()] for an ASCII character. *)
Definition upper (c : ascii) : ascii :=
  if is_lower c then ascii_of_nat (nat_of_ascii c - 32) else c.

(** A module, as far as [hasattr] and [getattr] go: its attributes by name. *)
Definition pymodule : Type := list (string * pyval).

(** [node_type[0].upper() + node_type[1:] + 'Node'], when [node_type] is not
    empty. *)
Definition node_name (c : ascii) (rest : string) : string :=
  (String (upper c) rest ++ "Node")%string.

(** [resolve_class(node_type, module)].  [resolve_module] imports the module
    named after the node type and gives it, or raises; what it finds depends
    on the modules installed, so it is left open.  It is called with
    [node_type] and only when [module] is [None]. *)
Definition resolve_class (node_type : string) (module : option pymodule)
  (resolve_module : string -> exn + pymodule) : result pyval :=
  match (match module with
         | Some m => inr m
         | None => resolve_module node_type
         end) with
  | inl e => Error e
  | inr m =>
      match node_type with
      | EmptyString => Error IndexError
      | String c rest =>
          if is_ascii c then
            match kw_get (node_name c rest) m with
            | Some cls => Ok cls
            | None => Error ValueError
            end
          else Unmodelled
      end
  end.

(** [s.split(sep)] for a separator of one character: never an empty list. *)
Fixpoint split_on (sep : ascii) (s : string) : list string :=
  match s with
  | EmptyString => [EmptyString]
  | String c rest =>
      if Ascii.eqb c sep then EmptyString :: split_on sep rest
      else
        match split_on sep rest with
        | [] => [String c EmptyString]
        | tok :: toks => String c tok :: toks
        end
  end.

(** [sep.join(tokens)] *)
Fixpoint join (sep : string) (tokens : list string) : string :=
  match tokens with
  | [] => EmptyString
  | tok :: rest =>
      match rest with
      | [] => tok
      | _ :: _ => (tok ++ sep ++ join sep rest)%string
      end
  end.

Definition is_digit (c : ascii) : bool :=
  ((48 <=? nat_of_ascii c) && (nat_of_ascii c <=? 57))%nat.

(** Characters [int] may accept besides digits, in one version of the
    interpreter or another: white space, a sign, an underscore, and
    anything that is not ASCII. *)
Definition is_lenient (c : ascii) : bool :=
  let n := nat_of_ascii c in
  ((9 <=? n) && (n <=? 13) || (28 <=? n) && (n <=? 32)
   || (n =? 43) || (n =? 45) || (n =? 95) || (128 <=? n))%nat.

Fixpoint all_chars (f : ascii -> bool) (s : string) : bool :=
  match s with
  | EmptyString => true
  | String c rest => f c && all_chars f rest
  end.

Fixpoint any_char (f : ascii -> bool) (s : string) : bool :=
  match s with
  | EmptyString => false
  | String c rest => f c || any_char f rest
  end.

(** The number a string of decimal digits writes. *)
Fixpoint digits_value (acc : Z) (s : string) : Z :=
  match s with
  | EmptyString => acc
  | String c rest =>
      digits_value (10 * acc + Z.of_nat (nat_of_ascii c - 48))%Z rest
  end.

(** [int(s)] on the strings every version of the interpreter treats alike: a
    non-empty string of at most 4000 ASCII digits is its number; the empty
    string, and a string with a character that is neither a digit nor one
    [int] may accept, is a [ValueError]. *)
Definition py_int (s : string) : result Z :=
  if any_char is_lenient s then Unmodelled
  else if (4000 <? String.length s)%nat then Unmodelled
  else if all_chars is_digit s && negb (String.eqb s EmptyString)
       then Ok (digits_value 0 s)
       else Error ValueError.

(** [str(z)] for an integer. *)
Definition py_str (z : Z) : string := NilZero.string_of_int (Z.to_int z).

(** The publishing address of [IONode.serve_forever], from the address the
    node serves on:
    [tokens = addr.split(':')] and
    [':'.join(tokens[:-1] + [str(int(tokens[-1]) + 100)])]. *)
Definition pub_address (addr : string) : result string :=
  let tokens := split_on ":" addr in
  match py_int (last tokens EmptyString) with
  | Ok port => Ok (join ":" (removelast tokens ++ [py_str (port + 100)]))
  | Error e => Error e
  | Unmodelled => Unmodelled
  end.

End IONode.

(** * Properties *)

(** ** The callback table *)

Lemma py_eq_str_inv (v : pyval) (a : string) :
  py_eq v (PStr a) = true -> v = PStr a.
Proof.
  destruct v; simpl; try discriminate.
  intros H. apply String.eqb_eq in H. now subst.
Qed.

Lemma reset_unequal_keys (attr : pyval) (cbs : pydict) :
  dict_keys (reset_unequal attr cbs) = dict_keys cbs.
Proof.
  unfold dict_keys, reset_unequal. rewrite map_map.
  apply map_ext. intros [k v]. simpl. now destruct (py_eq v attr).
Qed.

(** With a string for [attr], the second loop of [attach] stores nothing: an
    entry equal to [attr] is a string, and a string takes no item. *)
Lemma store_equal_str (a : string) (cbid : Z) (func : pyval) (cbs : pydict) :
  store_equal (PStr a) cbid func cbs =
  (cbs, if existsb (fun kv => py_eq (snd kv) (PStr a)) cbs
        then Some TypeError else None).
Proof.
  induction cbs as [|[k v] rest IH]; simpl; [reflexivity|].
  destruct (py_eq v (PStr a)) eqn:E.
  - apply py_eq_str_inv in E. subst v. reflexivity.
  - rewrite IH. reflexivity.
Qed.

(** [attach] in closed form. *)
Lemma attach_eq (a : string) (func : pyval) (s : Lord) :
  attach a func s =
  let cbs := reset_unequal (PStr a) (callbacks s) in
  let s' := set_cbindex (_cbindex s + 1)%Z (set_callbacks cbs s) in
  if existsb (fun kv => py_eq (snd kv) (PStr a)) cbs
  then Raise TypeError s' else Return (_cbindex s) s'.
Proof.
  unfold attach. simpl. rewrite store_equal_str.
  destruct (existsb _ _); reflexivity.
Qed.





(** An object equal to [cbid] never lets the item [cbid] be deleted from it:
    a dictionary equals only a dictionary, which is no key; a list equals
    only a list, which is no index; nothing else has items. *)
Lemma delitem_equal_raises (v cbid : pyval) :
  py_eq v cbid = true -> exists e, delitem v cbid = inl e.
Proof.
  destruct v, cbid; simpl; try discriminate; intros _; eauto.
Qed.

Lemma delete_equal_never_deletes (cbid : pyval) (cbs : pydict) :
  delete_equal cbid cbs = None \/ exists e, delete_equal cbid cbs = Some (inl e).
Proof.
  induction cbs as [|[k v] rest IH]; simpl; [now left|].
  destruct (py_eq v cbid) eqn:E.
  - destruct (delitem_equal_raises _ _ E) as [e He]. rewrite He. eauto.
  - destruct IH as [-> | [e ->]]; eauto.
Qed.

(** [detatch] never returns: it raises and leaves the [Lord] as it was. *)
Lemma detatch_always_raises (cbid : pyval) (s : Lord) :
  exists e, detatch cbid s = Raise e s.
Proof.
  unfold detatch.
  destruct (delete_equal_never_deletes cbid (callbacks s)) as [-> | [e ->]];
    eauto.
Qed.

(** ** What no method of the fragment changes *)

Lemma frame_refl (s : Lord) : frame s s.
Proof.
  constructor; auto; try lia. exists []. now rewrite app_nil_r.
Qed.

Lemma frame_trans (s1 s2 s3 : Lord) : frame s1 s2 -> frame s2 s3 -> frame s1 s3.
Proof.
  intros [K1 C1 S1 P1 N1 [m1 O1]] [K2 C2 S2 P2 N2 [m2 O2]].
  constructor; try congruence; try lia; auto.
  exists (m1 ++ m2). now rewrite O2, O1, app_assoc.
Qed.

Lemma framed_return {A : Type} (a : A) (s s' : Lord) :
  frame s s' -> framed (Return a s') s.
Proof. intros H x Hx. simpl in Hx. now inversion Hx; subst. Qed.

Lemma framed_raise {A : Type} (e : exn) (s s' : Lord) :
  frame s s' -> framed (@Raise A e s') s.
Proof. intros H x Hx. simpl in Hx. now inversion Hx; subst. Qed.

Lemma framed_bind {A B : Type} (m : outcome A) (k : A -> Lord -> outcome B)
  (s : Lord) :
  framed m s ->
  (forall a s1, m = Return a s1 -> framed (k a s1) s1) ->
  framed (bind m k) s.
Proof.
  intros Hm Hk s' H. destruct m as [a s1|e s1| | |]; simpl in *;
    try discriminate.
  - eapply frame_trans; [apply Hm; reflexivity|]. now apply (Hk a s1).
  - now apply Hm.
Qed.

Lemma framed_weaken {A : Type} (m : outcome A) (s0 s : Lord) :
  frame s0 s -> framed m s -> framed m s0.
Proof. intros H Hm s' Hs'. eapply frame_trans; eauto. Qed.

Lemma framed_discard {A : Type} (m : outcome A) (s : Lord) :
  framed m s -> framed (discard m) s.
Proof.
  intros H. unfold discard. apply framed_bind; [exact H|].
  intros a s1 _. apply framed_return, frame_refl.
Qed.

Lemma attach_framed (a : string) (func : pyval) (s : Lord) :
  framed (attach a func s) s.
Proof.
  rewrite attach_eq. cbv zeta.
  assert (F : frame s (set_cbindex (_cbindex s + 1)%Z
                (set_callbacks (reset_unequal (PStr a) (callbacks s)) s))).
  { constructor; simpl; auto; try lia.
    - apply reset_unequal_keys.
    - exists []. now rewrite app_nil_r. }
  destruct (existsb _ _); [now apply framed_raise | now apply framed_return].
Qed.

Lemma detatch_framed (cbid : pyval) (s : Lord) : framed (detatch cbid s) s.
Proof.
  destruct (detatch_always_raises cbid s) as [e ->].
  apply framed_raise, frame_refl.
Qed.

Lemma send_framed (attr : pyval) (args : pyargs) (kwargs : pykwargs)
  (s : Lord) : framed (send attr args kwargs s) s.
Proof.
  unfold send.
  destruct attr; try (apply framed_raise, frame_refl).
  destruct (pipe s) as [p|] eqn:P; [|apply framed_raise, frame_refl].
  apply framed_return. constructor; simpl; auto; try lia.
  - unfold pending. simpl. rewrite P. lia.
  - unfold sent. simpl. rewrite P. eauto.
Qed.

Lemma call_value_framed (f : pyval) (args : pyargs) (kwargs : pykwargs)
  (s : Lord) : framed (call_value f args kwargs s) s.
Proof.
  destruct f; simpl; try (apply framed_raise, frame_refl).
  apply framed_return. constructor; simpl; auto; try lia.
  exists []. now rewrite app_nil_r.
Qed.

Lemma call_each_framed (cbs : list pyval) (args : pyargs) (kwargs : pykwargs)
  (s : Lord) : framed (call_each cbs args kwargs s) s.
Proof.
  revert s. induction cbs as [|cb rest IH]; intros s; simpl.
  - apply framed_return, frame_refl.
  - apply framed_bind; [apply call_value_framed|]. intros _ s1 _. apply IH.
Qed.

Lemma run_callbacks_framed (attr : string) (args : pyargs) (kwargs : pykwargs)
  (s : Lord) : framed (run_callbacks attr args kwargs s) s.
Proof.
  unfold run_callbacks.
  destruct (dict_get _ _) as [[]|];
    try (apply framed_return, frame_refl);
    try apply call_each_framed; apply call_value_framed.
Qed.

Lemma state_with_framed (self_update : Lord -> outcome unit)
  (new_state upd : pyval) (s : Lord) :
  framed (self_update s) s ->
  framed (state_with self_update new_state upd s) s.
Proof.
  intros H. unfold state_with.
  destruct (is_none new_state) eqn:N.
  - destruct (py_truthy upd).
    + apply framed_bind; [exact H|]. intros _ s1 _.
      apply framed_return, frame_refl.
    + apply framed_return, frame_refl.
  - apply framed_return. constructor; simpl; auto; try lia.
    + intros _ ->. discriminate.
    + exists []. now rewrite app_nil_r.
Qed.

Lemma call_attr_framed (self_update : Lord -> outcome unit) (attr : string)
  (args : pyargs) (kwargs : pykwargs) (s : Lord) :
  framed (self_update s) s ->
  framed (call_attr self_update attr args kwargs s) s.
Proof.
  intros H. unfold call_attr, error.
  repeat match goal with
         | |- framed (match ?x with _ => _ end) _ => destruct x
         end;
    first [ apply framed_raise, frame_refl
          | intros x Hx; discriminate
          | apply framed_discard, attach_framed
          | apply framed_discard, detatch_framed
          | now apply framed_discard, state_with_framed
          | apply send_framed
          | apply call_value_framed ].
Qed.

Lemma consume_frame (s : Lord) : frame s (consume s).
Proof.
  unfold consume. destruct (pipe s) as [p|] eqn:P; [|apply frame_refl].
  constructor; simpl; auto; try lia.
  - unfold pending. simpl. rewrite P. destruct (inbox p); simpl; lia.
  - unfold sent. simpl. rewrite P. exists []. now rewrite app_nil_r.
Qed.

Lemma update_fuel_framed (n : nat) (s : Lord) : framed (update_fuel n s) s.
Proof.
  revert s. induction n as [|n IH]; intros s; simpl.
  - intros x Hx. discriminate.
  - destruct (pipe s) as [p|] eqn:P; [|apply framed_raise, frame_refl].
    destruct (inbox p) as [|[[attr args] kwargs] rest] eqn:I;
      [apply framed_return, frame_refl|].
    simpl.
    assert (C : set_pipe (Some {| outbox := outbox p; inbox := rest |}) s
                = consume s).
    { unfold consume. rewrite P, I. reflexivity. }
    rewrite C. apply (framed_weaken (consume_frame s)).
    apply framed_bind; [apply call_attr_framed, IH|].
    intros _ s1 _. apply run_callbacks_framed.
Qed.

Lemma update_framed (s : Lord) : framed (update s) s.
Proof. apply update_fuel_framed. Qed.

(** ** [update], one message at a time *)

Lemma call_attr_ext (f g : Lord -> outcome unit) (attr : string)
  (args : pyargs) (kwargs : pykwargs) (s : Lord) :
  f s = g s ->
  call_attr f attr args kwargs s = call_attr g attr args kwargs s.
Proof.
  intros H. unfold call_attr, state_with. rewrite H. reflexivity.
Qed.

Lemma pending_consume (s : Lord) (p : Pipe) (m : message) (rest : list message) :
  pipe s = Some p -> inbox p = m :: rest ->
  pending s = S (pending (consume s)).
Proof.
  intros P I. unfold consume, pending. rewrite P. simpl. now rewrite I.
Qed.

(** With nothing to read, [update] does nothing. *)
Lemma update_idle (s : Lord) (p : Pipe) :
  pipe s = Some p -> inbox p = [] -> update s = Return tt s.
Proof.
  intros P I. unfold update. simpl. now rewrite P, I.
Qed.

(** Before the first [start] there is no [pipe] attribute. *)
Lemma update_no_pipe (s : Lord) :
  pipe s = None -> update s = Raise AttributeError s.
Proof.
  intros P. unfold update. simpl. now rewrite P.
Qed.

(** With a message to read, [update] takes it off the pipe, calls the
    attribute it names, then the callbacks under that name. *)
Lemma update_eq (s : Lord) (p : Pipe) (attr : string) (args : pyargs)
  (kwargs : pykwargs) (rest : list message) :
  pipe s = Some p -> inbox p = (attr, args, kwargs) :: rest ->
  update s =
  (_ <- call_attr update attr args kwargs (consume s) ;;
   run_callbacks attr args kwargs).
Proof.
  intros P I. unfold update at 1. simpl. rewrite P, I. simpl.
  assert (C : set_pipe (Some {| outbox := outbox p; inbox := rest |}) s
              = consume s).
  { unfold consume. rewrite P, I. reflexivity. }
  rewrite C. f_equal. apply call_attr_ext.
  unfold update. now rewrite (pending_consume s P I).
Qed.

(** The bound in [update] is never reached. *)
Lemma update_fuel_total (n : nat) (s : Lord) :
  (pending s < n)%nat -> update_fuel n s <> OutOfFuel.
Proof.
  revert s. induction n as [|n IH]; intros s Hn; [lia|]. simpl.
  destruct (pipe s) as [p|] eqn:P; [|discriminate].
  destruct (inbox p) as [|[[attr args] kwargs] rest] eqn:I; [discriminate|].
  simpl.
  assert (C : set_pipe (Some {| outbox := outbox p; inbox := rest |}) s
              = consume s).
  { unfold consume. rewrite P, I. reflexivity. }
  rewrite C.
  assert (Hc : update_fuel n (consume s) <> OutOfFuel).
  { apply IH. rewrite (pending_consume s P I) in Hn. lia. }
  set (s0 := consume s) in *. clearbody s0.
  assert (Hr : forall s1, run_callbacks attr args kwargs s1 <> OutOfFuel).
  { intros s1. unfold run_callbacks.
    assert (He : forall l s2, call_each l args kwargs s2 <> OutOfFuel).
    { induction l as [|c l IHl]; intros s2; simpl; [discriminate|].
      destruct c; simpl; try discriminate. apply IHl. }
    destruct (dict_get _ _) as [[]|]; simpl; try discriminate; apply He. }
  assert (Ha : call_attr (update_fuel n) attr args kwargs s0 <> OutOfFuel).
  { unfold call_attr, error, discard.
    repeat match goal with
           | |- context [match ?x with _ => _ end] =>
               match x with
               | lookup_member _ => destruct x
               | bind_params _ _ _ => destruct x
               | kw_get _ _ => destruct x
               | pipe _ => destruct x
               | _ => is_var x; destruct x
               end
           end; simpl; try discriminate.
    - rewrite attach_eq. cbv zeta. destruct (existsb _ _); discriminate.
    - destruct (detatch_always_raises p0 s0) as [e ->]. discriminate.
    - unfold state_with.
      destruct (is_none _); [destruct (py_truthy _)|]; simpl; try discriminate.
      destruct (update_fuel n s0); simpl; congruence.
    - unfold send. destruct p0; try discriminate.
      destruct (pipe s0); discriminate.
    - unfold send. destruct p0; try discriminate.
      destruct (pipe s0); discriminate.
    - destruct (_state s0); simpl; discriminate. }
  destruct (call_attr _ _ _ _ _); simpl;
    first [apply Hr | discriminate | congruence].
Qed.

Lemma update_total (s : Lord) : update s <> OutOfFuel.
Proof. apply update_fuel_total. lia. Qed.

Lemma update_framed_consume (s : Lord) (p : Pipe) (m : message)
  (rest : list message) :
  pipe s = Some p -> inbox p = m :: rest -> framed (update s) (consume s).
Proof.
  intros P I. destruct m as [[attr args] kwargs].
  rewrite (update_eq s P I).
  apply framed_bind; [apply call_attr_framed, update_framed|].
  intros _ s1 _. apply run_callbacks_framed.
Qed.

(** An [update] with something to read leaves less to read. *)
Lemma update_consumes (s s' : Lord) :
  (0 < pending s)%nat -> after (update s) = Some s' ->
  (pending s' < pending s)%nat.
Proof.
  intros Hp H. unfold pending in Hp.
  destruct (pipe s) as [p|] eqn:P; [|lia].
  destruct (inbox p) as [|m rest] eqn:I; [simpl in Hp; lia|].
  pose proof (update_framed_consume s P I H) as F.
  rewrite (pending_consume s P I). apply fr_pending in F. lia.
Qed.

(** ** What [start] and [stop] keep *)

Lemma grows_refl (s : Lord) : grows s s.
Proof. constructor; auto; lia. Qed.

Lemma grows_trans (s1 s2 s3 : Lord) : grows s1 s2 -> grows s2 s3 -> grows s1 s3.
Proof.
  intros [K1 C1 S1] [K2 C2 S2]. constructor; try congruence; try lia; auto.
Qed.

Lemma frame_grows (s s' : Lord) : frame s s' -> grows s s'.
Proof. intros [K C S _ _ _]. now constructor. Qed.

Lemma grows_set_process (p : option Process) (s : Lord) :
  grows s (set_process p s).
Proof. constructor; simpl; auto; lia. Qed.

Lemma grows_spawn (w : Serf) (s : Lord) : grows s (spawn w s).
Proof. constructor; simpl; auto; lia. Qed.

Lemma wait_for_state_framed (n : nat) (s : Lord) :
  framed (wait_for_state n s) s.
Proof.
  revert s. induction n as [|n IH]; intros s; simpl.
  - intros x Hx. discriminate.
  - apply framed_bind.
    + apply state_with_framed, update_framed.
    + intros v s1 _. destruct (is_none v); [|apply framed_return, frame_refl].
      destruct (Nat.eqb (pending s) 0); [intros x Hx; discriminate|].
      apply framed_bind; [apply update_framed|]. intros _ s2 _. apply IH.
Qed.

(** Whenever the waiting loop of [start] returns, the cached state is not
    [None]. *)
Lemma wait_for_state_returns (n : nat) (s s' : Lord) :
  wait_for_state n s = Return tt s' -> _state s' <> PNone.
Proof.
  revert s. induction n as [|n IH]; intros s; simpl; [discriminate|].
  unfold state, state_with. simpl.
  destruct (update s) as [[] s1|e s1| | |]; simpl; try discriminate.
  destruct (_state s1) eqn:E; simpl;
    try (intros H; inversion H; subst; congruence).
  destruct (Nat.eqb (pending s) 0); [discriminate|].
  destruct (update s1) as [[] s2|e s2| | |]; simpl; try discriminate.
  apply IH.
Qed.

Lemma wait_for_state_total (n : nat) (s : Lord) :
  (pending s < n)%nat -> wait_for_state n s <> OutOfFuel.
Proof.
  revert s. induction n as [|n IH]; intros s Hn; [lia|]. simpl.
  unfold state, state_with. simpl.
  pose proof (update_total s) as T.
  destruct (update s) as [[] s1|e s1| | |] eqn:U; simpl; try discriminate;
    try congruence.
  destruct (is_none (_state s1)); [|discriminate].
  destruct (Nat.eqb (pending s) 0) eqn:Z; [discriminate|].
  apply Nat.eqb_neq in Z.
  assert (L1 : (pending s1 < pending s)%nat).
  { apply update_consumes; [lia|]. now rewrite U. }
  pose proof (update_total s1) as T1.
  pose proof (@update_framed s1) as F1.
  destruct (update s1) as [[] s2|e s2| | |] eqn:U1; simpl; try discriminate;
    try congruence.
  apply IH. specialize (F1 s2 eq_refl). apply fr_pending in F1. lia.
Qed.

Lemma start_grows (w : Serf) (wait : bool) (s : Lord) :
  forall s', after (start w wait s) = Some s' -> grows s s'.
Proof.
  assert (G : forall s0 s', grows s s0 ->
            after (if wait then wait_for_state (S (pending (spawn w s0)))
                                  (spawn w s0)
                   else Return tt (spawn w s0)) = Some s' -> grows s s').
  { intros s0 s' G0 H.
    apply (grows_trans G0). apply (grows_trans (grows_spawn w s0)).
    destruct wait.
    - apply frame_grows. eapply wait_for_state_framed. exact H.
    - simpl in H. inversion H. apply grows_refl. }
  intros s'. unfold start.
  destruct (process s) as [p|]; [|apply G, grows_refl].
  destruct (is_alive p) as [alive p'].
  destruct alive.
  - simpl. intros H. inversion H. apply grows_set_process.
  - apply G, grows_set_process.
Qed.

Lemma start_total (w : Serf) (wait : bool) (s : Lord) :
  start w wait s <> OutOfFuel.
Proof.
  unfold start.
  destruct (process s) as [p|].
  - destruct (is_alive p) as [[] p']; [discriminate|].
    destruct wait; [apply wait_for_state_total; lia|discriminate].
  - destruct wait; [apply wait_for_state_total; lia|discriminate].
Qed.

Lemma sent_set_process (p : option Process) (s : Lord) :
  sent (set_process p s) = sent s.
Proof. reflexivity. Qed.

(** The draining loop of [stop] keeps the table's keys, the counter and a
    state that is set, and only adds to what was sent. *)
Lemma drain_until_dead_keeps (n : nat) (s s' : Lord) :
  after (drain_until_dead n s) = Some s' ->
  grows s s' /\ exists more, sent s' = sent s ++ more.
Proof.
  revert s. induction n as [|n IH]; intros s; simpl; [discriminate|].
  assert (R : grows s s /\ exists more, sent s = sent s ++ more).
  { split; [apply grows_refl|]. exists []. now rewrite app_nil_r. }
  destruct (process s) as [p|];
    [|simpl; intros H; inversion H; subst; exact R].
  destruct (is_alive p) as [alive p'].
  set (s1 := set_process (Some p') s).
  destruct alive;
    [|simpl; intros H; inversion H; subst; split;
      [apply grows_set_process | exists []; now rewrite app_nil_r]].
  pose proof (@update_framed s1) as F.
  destruct (update s1) as [[] s2|e s2| | |]; simpl; try discriminate.
  - specialize (F s2 eq_refl).
    assert (K : grows s s2 /\ exists more, sent s2 = sent s ++ more).
    { split.
      - apply (grows_trans (grows_set_process (Some p') s)), frame_grows, F.
      - apply fr_sent in F. exact F. }
    destruct (lifetime p'); [|destruct (pending s1); [discriminate|]];
      intros H; apply IH in H; destruct H as [G [m2 M2]];
      destruct K as [G1 [m1 M1]];
      (split; [eapply grows_trans; eauto|]);
      exists (m1 ++ m2); now rewrite M2, M1, app_assoc.
  - intros H. inversion H; subst. specialize (F s' eq_refl). split.
    + apply (grows_trans (grows_set_process (Some p') s)), frame_grows, F.
    + apply fr_sent in F. exact F.
Qed.


Lemma drain_until_dead_total (n : nat) (s : Lord) :
  match process s with
  | Some {| lifetime := Some k |} => (k < n)%nat
  | _ => (pending s < n)%nat
  end ->
  drain_until_dead n s <> OutOfFuel.
Proof.
  revert s. induction n as [|n IH]; intros s Hn.
  - destruct (process s) as [[[k|]]|]; lia.
  - simpl. destruct (process s) as [[l]|] eqn:P; [|discriminate].
    unfold is_alive. simpl.
    destruct l as [[|k]|]; [discriminate| |].
    + set (s1 := set_process (Some {| lifetime := Some k |}) s).
      pose proof (update_total s1) as T.
      pose proof (@update_framed s1) as F.
      destruct (update s1) as [[] s2|e s2| | |]; simpl; try discriminate;
        try congruence.
      apply IH. specialize (F s2 eq_refl). apply fr_process in F.
      rewrite F. simpl. lia.
    + set (s1 := set_process (Some {| lifetime := None |}) s).
      pose proof (update_total s1) as T.
      pose proof (@update_framed s1) as F.
      pose proof (@update_consumes s1) as C.
      destruct (update s1) as [[] s2|e s2| | |]; simpl; try discriminate;
        try congruence.
      destruct (pending s1) eqn:E; [discriminate|].
      apply IH. specialize (F s2 eq_refl). apply fr_process in F.
      rewrite F. simpl. specialize (C s2 ltac:(lia) eq_refl).
      assert (pending s1 = pending s) by reflexivity. lia.
Qed.

Lemma stop_grows (wait : bool) (s : Lord) :
  forall s', after (stop wait s) = Some s' -> grows s s'.
Proof.
  intros s'. unfold stop.
  destruct (process s) as [p|];
    [|simpl; intros H; inversion H; apply grows_refl].
  destruct (is_alive p) as [[] p']; simpl negb; cbv iota;
    [|simpl; intros H; inversion H; apply grows_set_process].
  set (s0 := set_process (Some p') s).
  pose proof (@send_framed (PStr "exit") [] [] s0) as F.
  destruct (send _ _ _ s0) as [[] s1|e s1| | |]; simpl; try discriminate.
  - specialize (F s1 eq_refl). apply frame_grows in F.
    assert (G : grows s s1)
      by (eapply grows_trans; [apply grows_set_process|exact F]).
    destruct wait; simpl; [|intros H; inversion H; subst; exact G].
    destruct (drain_until_dead _ s1) as [[] s2|e s2| | |] eqn:D; simpl;
      try discriminate; intros H; inversion H; subst.
    + destruct (@drain_until_dead_keeps (drain_bound s1) s1 s2) as [G2 _];
        [now rewrite D|].
      eapply grows_trans; [exact G|].
      eapply grows_trans; [exact G2|apply grows_set_process].
    + destruct (@drain_until_dead_keeps (drain_bound s1) s1 s') as [G2 _];
        [now rewrite D|].
      eapply grows_trans; eauto.
  - intros H. inversion H; subst. specialize (F s' eq_refl).
    apply frame_grows in F.
    eapply grows_trans; [apply grows_set_process|exact F].
Qed.

Lemma stop_total (wait : bool) (s : Lord) : stop wait s <> OutOfFuel.
Proof.
  unfold stop.
  destruct (process s) as [p|]; [|discriminate].
  destruct (is_alive p) as [[] p']; simpl negb; cbv iota; [|discriminate].
  set (s0 := set_process (Some p') s).
  destruct (send (PStr "exit") [] [] s0) as [[] s1|e s1| | |] eqn:E; simpl;
    try discriminate;
    try (unfold send in E; destruct (pipe s0); discriminate).
  destruct wait; simpl; [|discriminate].
  assert (T : drain_until_dead (drain_bound s1) s1 <> OutOfFuel).
  { apply drain_until_dead_total. unfold drain_bound.
    destruct (process s1) as [[[k|]]|]; lia. }
  destruct (drain_until_dead _ s1); simpl; try discriminate; congruence.
Qed.

(** ** Callbacks touch nothing but the trace *)

Lemma only_calls_refl (s : Lord) : only_calls s s.
Proof. constructor; auto. exists []. now rewrite app_nil_r. Qed.

Lemma only_calls_trans (s1 s2 s3 : Lord) :
  only_calls s1 s2 -> only_calls s2 s3 -> only_calls s1 s3.
Proof.
  intros [A1 B1 C1 D1 E1 [m1 F1]] [A2 B2 C2 D2 E2 [m2 F2]].
  constructor; try congruence.
  exists (m1 ++ m2). now rewrite F2, F1, app_assoc.
Qed.

Lemma call_value_only_calls (f : pyval) (args : pyargs) (kwargs : pykwargs)
  (s : Lord) :
  exists s', after (call_value f args kwargs s) = Some s' /\ only_calls s s'.
Proof.
  destruct f; simpl; eexists; (split; [reflexivity|]);
    try apply only_calls_refl.
  constructor; simpl; eauto.
Qed.

Lemma call_each_only_calls (cbs : list pyval) (args : pyargs)
  (kwargs : pykwargs) (s : Lord) :
  exists s', after (call_each cbs args kwargs s) = Some s' /\ only_calls s s'.
Proof.
  revert s. induction cbs as [|cb rest IH]; intros s; simpl.
  - eexists. split; [reflexivity|apply only_calls_refl].
  - destruct (call_value_only_calls cb args kwargs s) as [s1 [H1 O1]].
    destruct (call_value cb args kwargs s) as [[] x|e x| | |]; simpl in *;
      try discriminate; inversion H1; subst.
    + destruct (IH s1) as [s2 [H2 O2]]. exists s2. split; [exact H2|].
      eapply only_calls_trans; eauto.
    + eauto.
Qed.

Lemma run_callbacks_only_calls (attr : string) (args : pyargs)
  (kwargs : pykwargs) (s : Lord) :
  exists s', after (run_callbacks attr args kwargs s) = Some s'
             /\ only_calls s s'.
Proof.
  unfold run_callbacks.
  destruct (dict_get _ _) as [[]|];
    try (eexists; split; [reflexivity|apply only_calls_refl]);
    try apply call_each_only_calls; apply call_value_only_calls.
Qed.

Lemma dict_get_none_keys (k : pykey) (d : pydict) :
  dict_get k d = None <-> forallb (fun k' => negb (key_eqb k k')) (dict_keys d) = true.
Proof.
  induction d as [|[k' v] d IH]; simpl; [tauto|].
  destruct (key_eqb k k'); simpl; [split; discriminate|exact IH].
Qed.

Lemma dict_get_none_same_keys (k : pykey) (d d' : pydict) :
  dict_keys d' = dict_keys d -> dict_get k d = None -> dict_get k d' = None.
Proof.
  intros K H. apply dict_get_none_keys. rewrite K. now apply dict_get_none_keys.
Qed.

Lemma callbacks_consume (s : Lord) : callbacks (consume s) = callbacks s.
Proof.
  unfold consume. now destruct (pipe s).
Qed.

Lemma state_consume (s : Lord) : _state (consume s) = _state s.
Proof.
  unfold consume. now destruct (pipe s).
Qed.

(** ** Runs that return *)

(** On a quiet Lord, [update] returns and the Lord stays quiet. *)
Lemma update_quiet (s : Lord) :
  quiet s ->
  exists s', update s = Return tt s' /\ quiet s' /\ process s' = process s.
Proof.
  intros [C [p [P F]]].
  destruct (inbox p) as [|m rest] eqn:I.
  - exists s. split; [now apply (update_idle s P)|].
    split; [|reflexivity]. split; [exact C|]. exists p. now rewrite I.
  - inversion F as [|m' rest' [v ->] F']; subst.
    rewrite (update_eq s P I).
    assert (Q : forall s1, callbacks s1 = [] ->
                run_callbacks "state" [v] [] s1 = Return tt s1).
    { intros s1 C1. unfold run_callbacks. now rewrite C1. }
    assert (K : consume s
                = set_pipe (Some {| outbox := outbox p; inbox := rest |}) s).
    { unfold consume. now rewrite P, I. }
    assert (E : exists s1,
                call_attr update "state" [v] [] (consume s) = Return tt s1
                /\ callbacks s1 = [] /\ process s1 = process s
                /\ pipe s1 = Some {| outbox := outbox p; inbox := rest |}).
    { rewrite K. destruct v; eexists; (split; [reflexivity|]); simpl; auto. }
    destruct E as [s1 [-> [C1 [P1 Q1]]]]. simpl. rewrite (Q s1 C1).
    exists s1. split; [reflexivity|]. split; [|exact P1].
    split; [exact C1|]. eexists. split; [exact Q1|exact F'].
Qed.

Lemma update_state_report (s : Lord) (p : Pipe) (v : pyval)
  (rest : list message) :
  pipe s = Some p -> inbox p = ("state"%string, [v], []) :: rest ->
  callbacks s = [] -> v <> PNone ->
  update s = Return tt (set_state v (consume s)).
Proof.
  intros P I C N. rewrite (update_eq s P I).
  assert (E : call_attr update "state" [v] [] (consume s)
              = Return tt (set_state v (consume s))).
  { unfold call_attr. simpl. unfold state_with.
    destruct v; try reflexivity. now destruct N. }
  rewrite E. simpl. unfold run_callbacks. simpl.
  now rewrite callbacks_consume, C.
Qed.

Lemma wait_for_state_first (n : nat) (s s1 : Lord) :
  update s = Return tt s1 -> _state s1 <> PNone ->
  wait_for_state (S n) s = Return tt s1.
Proof.
  intros U N. simpl. unfold state, state_with. simpl. rewrite U. simpl.
  destruct (_state s1); try reflexivity. now destruct N.
Qed.

(** [start(wait=True)] returns when the first thing the spawned serf writes
    is a state other than [None]. *)
Lemma start_returns_on_first_report (v : pyval) (more : list message)
  (life : option nat) (s : Lord) :
  has_live_process s = false -> callbacks s = [] -> v <> PNone ->
  exists s',
    start {| reports := ("state"%string, [v], []) :: more; lifespan := life |}
      true s = Return tt s'
    /\ _state s' = v.
Proof.
  intros L C N. unfold has_live_process, start in *.
  set (serf := {| reports := ("state"%string, [v], []) :: more;
                  lifespan := life |}).
  assert (W : forall s0, callbacks s0 = [] ->
            exists s', wait_for_state (S (pending (spawn serf s0)))
                         (spawn serf s0) = Return tt s'
                       /\ _state s' = v).
  { intros s0 C0. exists (set_state v (consume (spawn serf s0))).
    split; [|reflexivity].
    apply wait_for_state_first; [|exact N].
    now apply (@update_state_report (spawn serf s0)
                 {| outbox := []; inbox := reports serf |} v more). }
  destruct (process s) as [p|]; [|now apply W].
  destruct (is_alive p) as [alive p']. simpl in L. subst alive.
  now apply W.
Qed.

(** * The claims of the specification *)

(** ** Sessions: a caller using one Lord *)

Lemma perform_grows (r : request) (s s' : Lord) :
  after (perform r s) = Some s' -> grows s s'.
Proof.
  destruct r; simpl.
  - pose proof (@attach_framed attr func s) as F.
    destruct (attach attr func s); simpl; try discriminate;
      intros H; apply frame_grows, F; exact H.
  - intros H. apply frame_grows. now apply (@detatch_framed cbid s).
  - intros H. apply frame_grows.
    now apply (@state_with_framed update new_state upd s (@update_framed s)).
  - pose proof (@send_framed attr args kwargs s) as F.
    destruct (send attr args kwargs s); simpl; try discriminate;
      intros H; apply frame_grows, F; exact H.
  - pose proof (@update_framed s) as F.
    destruct (update s); simpl; try discriminate;
      intros H; apply frame_grows, F; exact H.
  - pose proof (@start_grows serf_class wait s) as F.
    destruct (start serf_class wait s); simpl; try discriminate;
      intros H; apply F; exact H.
  - pose proof (@stop_grows wait s) as F.
    destruct (stop wait s); simpl; try discriminate;
      intros H; apply F; exact H.
Qed.

Lemma attach_ids_above (rs : list request) (s : Lord) :
  Forall (fun i => (_cbindex s <= i)%Z) (attach_ids rs s)
  /\ StronglySorted Z.lt (attach_ids rs s).
Proof.
  revert s. induction rs as [|r rest IH]; intros s; simpl.
  - split; constructor.
  - assert (W : forall s', grows s s' ->
                Forall (fun i => (_cbindex s <= i)%Z) (attach_ids rest s')
                /\ StronglySorted Z.lt (attach_ids rest s')).
    { intros s' G. destruct (IH s') as [A B]. split; [|exact B].
      apply gr_cbindex in G.
      eapply Forall_impl; [|exact A]. simpl. intros. lia. }
    pose proof (@perform_grows r s) as G.
    destruct (perform r s) as [v s'|e s'| | |] eqn:P;
      try (split; constructor); try (apply W, G; reflexivity).
    destruct r; try (apply W, G; reflexivity).
    simpl in P. rewrite attach_eq in P. cbv zeta in P.
    destruct (existsb _ _); simpl in P; [discriminate|].
    inversion P; subst. destruct (IH (set_cbindex (_cbindex s + 1)%Z
        (set_callbacks (reset_unequal (PStr attr) (callbacks s)) s)))
      as [A B].
    simpl in A. split.
    + constructor; [lia|]. eapply Forall_impl; [|exact A]. simpl. intros. lia.
    + constructor; [exact B|].
      eapply Forall_impl; [|exact A]. simpl. intros. lia.
Qed.

(** C1, evaluated where it fails.  A Lord is started on a serf that reports
    the state [5]; a callback is attached to the event [state]; [attach]
    returns id [0] and leaves the table empty; the [update] that drains the
    report caches [5] and calls nothing, where the claim has the callback
    called with [(5)]. *)
Theorem attach_then_update_calls_nothing :
  let serf := {| reports := [("state"%string, [PInt 5], [])];
                 lifespan := None |} in
  let s0 := spawn serf init in
  exists s1 s2,
    attach "state" (PFunc 7) s0 = Return 0%Z s1
    /\ callbacks s1 = []
    /\ update s1 = Return tt s2
    /\ _state s2 = PInt 5
    /\ calls s2 = [].
Proof.
  cbv zeta. do 2 eexists. repeat split; reflexivity.
Qed.

(** C2, evaluated where it fails.  The id [attach] returned cannot be
    detached: [detatch] raises [ValueError].  The same happens on a table
    that does hold a callback under id [0], and the callback stays, where the
    claim has it removed. *)
Theorem detatch_fails_on_attached_id :
  let table := [(KStr "state", PDict [(KInt 0, PFunc 7)])] in
  (exists s1,
      attach "state" (PFunc 7) init = Return 0%Z s1
      /\ detatch (PInt 0) s1 = Raise ValueError s1)
  /\ detatch (PInt 0) (set_callbacks table init)
     = Raise ValueError (set_callbacks table init).
Proof.
  cbv zeta. split; [eexists; split; reflexivity | reflexivity].
Qed.

(** C3.  In every session on one Lord (calls of [attach], [detatch], [state],
    [send], [update], [start] and [stop] in any order, from any Lord) the ids
    returned by [attach] are strictly increasing in the order of the calls,
    hence pairwise distinct, and none is below the counter the session
    started with: an id is never handed out twice, whatever was detached in
    between. *)
Theorem attach_ids_increasing (rs : list request) (s : Lord) :
  StronglySorted Z.lt (attach_ids rs s)
  /\ NoDup (attach_ids rs s)
  /\ Forall (fun i => (_cbindex s <= i)%Z) (attach_ids rs s).
Proof.
  destruct (attach_ids_above rs s) as [A B].
  split; [exact B|]. split; [|exact A].
  clear A. induction B as [|i l _ IH F]; constructor; [|exact IH].
  intros In. rewrite Forall_forall in F. specialize (F i In). lia.
Qed.

(** On a table filled by hand, [update] does call what is registered under
    the name of the message, in the order of the entries and with the
    arguments of the message: the dispatch is sound, the registration is
    not. *)
Example update_calls_registered_in_order :
  let table := [(KStr "state", PDict [(KInt 0, PFunc 7); (KInt 1, PFunc 8)])] in
  let p := {| outbox := []; inbox := [("state"%string, [PInt 5], [])] |} in
  exists s',
    update (set_callbacks table (set_pipe (Some p) init)) = Return tt s'
    /\ calls s' = [(7%nat, [PInt 5], []); (8%nat, [PInt 5], [])].
Proof. cbv zeta. eexists. split; reflexivity. Qed.

(** A session with a [detatch] between two [attach]: the ids are [0] and [1]. *)
Example attach_ids_across_detatch :
  attach_ids [Attach "state" (PFunc 1); Detatch (PInt 0);
              Attach "state" (PFunc 2)] init = [0%Z; 1%Z].
Proof. reflexivity. Qed.

(** C4 fails before the first [start]: the Lord has no pipe yet, and [send]
    with a string raises [AttributeError].  Nothing was written, whatever the
    pipe would have done with the triple. *)
Lemma send_before_start_raises :
  send (PStr "sleep") [PInt 1] [] init = Raise AttributeError init
  /\ send_with reliable_send (PStr "sleep") [PInt 1] [] init
     = Raise AttributeError init
  /\ ~ exists s', send (PStr "sleep") [PInt 1] [] init = Return tt s'.
Proof.
  split; [reflexivity|]. split; [reflexivity|].
  intros [s' H]. discriminate H.
Qed.

(** C4, amended.  Whatever [pipe.send] does: [send] with an operation that is
    not a string raises [AssertionError] and leaves the Lord, its pipe
    included, as it was, so nothing is transmitted.  With a string, on a Lord
    that has no pipe yet, it raises [AttributeError].  With a string, on a
    Lord that has its pipe, it hands the pipe exactly the triple
    [(operation, args, kwargs)]: when the pipe takes it, [send] returns and
    the Lord has the pipe with the triple written and nothing else changed;
    when the pipe raises, [send] raises the same exception and the Lord is as
    it was.  On a pipe that takes every message, [send] returns with the
    triple last of what was sent. *)
Theorem send_contract (pipe_send : channel) (attr : pyval) (args : pyargs)
  (kwargs : pykwargs) (s : Lord) :
  ((forall a, attr <> PStr a) ->
   send_with pipe_send attr args kwargs s = Raise AssertionError s)
  /\ (forall a, attr = PStr a -> pipe s = None ->
      send_with pipe_send attr args kwargs s = Raise AttributeError s)
  /\ (forall a p p', attr = PStr a -> pipe s = Some p ->
      pipe_send p (a, args, kwargs) = inr p' ->
      send_with pipe_send attr args kwargs s
      = Return tt (set_pipe (Some p') s))
  /\ (forall a p e, attr = PStr a -> pipe s = Some p ->
      pipe_send p (a, args, kwargs) = inl e ->
      send_with pipe_send attr args kwargs s = Raise e s)
  /\ send attr args kwargs s = send_with reliable_send attr args kwargs s
  /\ (forall a p, attr = PStr a -> pipe s = Some p ->
      send attr args kwargs s
      = Return tt
          (set_pipe (Some {| outbox := outbox p ++ [(a, args, kwargs)];
                             inbox := inbox p |}) s)).
Proof.
  split; [|split; [|split; [|split; [|split]]]].
  - intros N. destruct attr; try reflexivity. now destruct (N s0).
  - intros a -> P. unfold send_with. now rewrite P.
  - intros a p p' -> P E. unfold send_with. now rewrite P, E.
  - intros a p e -> P E. unfold send_with. now rewrite P, E.
  - reflexivity.
  - intros a p -> P. unfold send. now rewrite P.
Qed.

Lemma send_contract_witness :
  let s := spawn {| reports := []; lifespan := None |} init in
  let refuses : channel := fun _ _ => inl PicklingError in
  send_with reliable_send (PInt 3) [] [] s = Raise AssertionError s
  /\ send_with refuses (PInt 3) [] [] s = Raise AssertionError s
  /\ send_with reliable_send (PStr "sleep") [PInt 1] [] init
     = Raise AttributeError init
  /\ send_with reliable_send (PStr "sleep") [PInt 1] [] s
     = Return tt
         (set_pipe (Some {| outbox := [("sleep"%string, [PInt 1], [])];
                            inbox := [] |}) s)
  /\ send_with refuses (PStr "sleep") [PFunc 1] [] s = Raise PicklingError s.
Proof.
  cbv zeta.
  pose (s := spawn {| reports := []; lifespan := None |} init).
  pose (refuses := (fun _ _ => inl PicklingError) : channel).
  split; [|split; [|split; [|split]]].
  - apply (proj1 (send_contract reliable_send (PInt 3) [] [] s)).
    intros a. discriminate.
  - apply (proj1 (send_contract refuses (PInt 3) [] [] s)).
    intros a. discriminate.
  - apply (proj1 (proj2 (send_contract reliable_send (PStr "sleep") [PInt 1]
                           [] init)) "sleep"%string); reflexivity.
  - apply (proj1 (proj2 (proj2 (send_contract reliable_send (PStr "sleep")
                                  [PInt 1] [] s)))
             "sleep"%string {| outbox := []; inbox := [] |});
      reflexivity.
  - apply (proj1 (proj2 (proj2 (proj2 (send_contract refuses (PStr "sleep")
                                         [PFunc 1] [] s))))
             "sleep"%string {| outbox := []; inbox := [] |});
      reflexivity.
Defined.

(** C5 fails for the value [None]: with [5] cached, a report of [None] leaves
    [5], and [state()] returns [5]. *)
Lemma state_report_none_keeps_state :
  let p := {| outbox := []; inbox := [("state"%string, [PNone], [])] |} in
  let s := set_state (PInt 5) (set_pipe (Some p) init) in
  pipe s = Some p
  /\ inbox p = [("state"%string, [PNone], [])]
  /\ (exists s', update s = Return tt s'
                 /\ state PNone (PBool false) s' = Return (PInt 5) s')
  /\ ~ report_replaces_state PNone s.
Proof.
  cbv zeta. split; [reflexivity|]. split; [reflexivity|]. split.
  - eexists. split; reflexivity.
  - intros [s' [U G]]. vm_compute in U. inversion U; subst.
    vm_compute in G. discriminate.
Qed.

(** C5, amended.  For every pending state report that carries a value [v]
    other than [None], one [update] replaces the cached state with [v] and a
    following [state()] returns [v]. *)
Theorem state_report_replaces_state (s : Lord) (p : Pipe) (v : pyval)
  (rest : list message) :
  pipe s = Some p ->
  inbox p = ("state"%string, [v], []) :: rest ->
  v <> PNone ->
  report_replaces_state v s.
Proof.
  intros P I N. unfold report_replaces_state.
  rewrite (update_eq s P I).
  assert (C : call_attr update "state" [v] [] (consume s)
              = Return tt (set_state v (consume s))).
  { unfold call_attr. simpl. unfold state_with.
    destruct v; try reflexivity. now destruct N. }
  rewrite C. simpl.
  destruct (run_callbacks_only_calls "state" [v] [] (set_state v (consume s)))
    as [s' [A O]].
  exists s'. split; [exact A|].
  unfold state, state_with. simpl. apply oc_state in O. simpl in O.
  now rewrite O.
Qed.

Lemma state_report_replaces_state_witness :
  let p := {| outbox := []; inbox := [("state"%string, [PInt 5], [])] |} in
  let s := set_pipe (Some p) init in
  pipe s = Some p
  /\ inbox p = ("state"%string, [PInt 5], []) :: []
  /\ PInt 5 <> PNone
  /\ report_replaces_state (PInt 5) s.
Proof.
  cbv zeta.
  assert (N : PInt 5 <> PNone) by discriminate.
  split; [reflexivity|]. split; [reflexivity|]. split; [exact N|].
  exact (@state_report_replaces_state
           (set_pipe (Some {| outbox := [];
                              inbox := [("state"%string, [PInt 5], [])] |})
              init)
           _ (PInt 5) [] eq_refl eq_refl N).
Defined.

(** C6.  For every pending error signal, [update] does not return: it raises
    the [SerfError] built from the arguments of the signal, with the message
    taken off the pipe. *)
Theorem update_raises_error_signal (s : Lord) (p : Pipe) (args : pyargs)
  (kwargs : pykwargs) (rest : list message) :
  pipe s = Some p ->
  inbox p = ("error"%string, args, kwargs) :: rest ->
  update s = Raise (SerfError args kwargs) (consume s).
Proof.
  intros P I. rewrite (update_eq s P I). reflexivity.
Qed.

Lemma update_raises_error_signal_witness :
  let p := {| outbox := [];
              inbox := [("error"%string, [PStr "boom"], [])] |} in
  let s := set_pipe (Some p) init in
  pipe s = Some p
  /\ inbox p = ("error"%string, [PStr "boom"], []) :: []
  /\ update s = Raise (SerfError [PStr "boom"] []) (consume s).
Proof.
  cbv zeta. split; [reflexivity|]. split; [reflexivity|].
  exact (@update_raises_error_signal
           (set_pipe (Some {| outbox := [];
                              inbox := [("error"%string, [PStr "boom"], [])] |})
              init)
           _ [PStr "boom"] [] [] eq_refl eq_refl).
Defined.

(** C7 fails: the event [progress] has no entry in the table and is no
    reserved name, and the [update] that drains it raises [AttributeError],
    because the Lord has no attribute of that name to call. *)
Lemma update_unknown_event_raises :
  let p := {| outbox := []; inbox := [("progress"%string, [], [])] |} in
  let s := set_pipe (Some p) init in
  pipe s = Some p
  /\ inbox p = [("progress"%string, [], [])]
  /\ dict_get (KStr "progress") (callbacks s) = None
  /\ update s = Raise AttributeError (consume s)
  /\ ~ completes (update s).
Proof.
  cbv zeta. split; [reflexivity|]. split; [reflexivity|].
  split; [reflexivity|]. split; [reflexivity|].
  intros [s' H]. vm_compute in H. discriminate.
Qed.

(** C7, amended.  For every pending message whose operation has no entry in
    the callback table, [update] is the call of the Lord's attribute of that
    name and nothing more: no callback runs and the missing entry raises
    nothing, so [update] completes whenever that call does; an operation
    that names no attribute of the Lord raises [AttributeError]. *)
Theorem update_without_subscribers (s : Lord) (p : Pipe) (attr : string)
  (args : pyargs) (kwargs : pykwargs) (rest : list message) :
  pipe s = Some p ->
  inbox p = (attr, args, kwargs) :: rest ->
  dict_get (KStr attr) (callbacks s) = None ->
  update s = call_attr update attr args kwargs (consume s)
  /\ (completes (call_attr update attr args kwargs (consume s)) ->
      completes (update s))
  /\ (lookup_member attr = Absent ->
      update s = Raise AttributeError (consume s)).
Proof.
  intros P I G.
  assert (E : update s = call_attr update attr args kwargs (consume s)).
  { rewrite (update_eq s P I).
    pose proof (@call_attr_framed update attr args kwargs (consume s)
                  (@update_framed (consume s))) as F.
    destruct (call_attr update attr args kwargs (consume s))
      as [[] s1|e s1| | |]; simpl; try reflexivity.
    specialize (F s1 eq_refl). apply fr_keys in F.
    unfold run_callbacks.
    rewrite (@dict_get_none_same_keys (KStr attr) (callbacks (consume s))
               (callbacks s1) F); [reflexivity|].
    now rewrite callbacks_consume. }
  split; [exact E|]. split.
  - now rewrite E.
  - intros A. rewrite E. unfold call_attr. now rewrite A.
Qed.

Lemma update_without_subscribers_witness :
  let p := {| outbox := [];
              inbox := [("send"%string, [PStr "sleep"], [])] |} in
  let s := set_pipe (Some p) init in
  pipe s = Some p
  /\ inbox p = ("send"%string, [PStr "sleep"], []) :: []
  /\ dict_get (KStr "send") (callbacks s) = None
  /\ update s = call_attr update "send" [PStr "sleep"] [] (consume s)
  /\ (completes (call_attr update "send" [PStr "sleep"] [] (consume s)) ->
      completes (update s))
  /\ (lookup_member "send" = Absent ->
      update s = Raise AttributeError (consume s)).
Proof.
  cbv zeta. split; [reflexivity|]. split; [reflexivity|].
  split; [reflexivity|].
  exact (@update_without_subscribers
           (set_pipe (Some {| outbox := [];
                              inbox := [("send"%string, [PStr "sleep"], [])] |})
              init)
           _ "send"%string [PStr "sleep"] [] [] eq_refl eq_refl eq_refl).
Defined.

(** A message that names a method of the Lord and has no subscribers is
    drained without error: here the serf has the Lord send [sleep] back. *)
Example update_without_subscribers_completes :
  completes
    (update (set_pipe
               (Some {| outbox := [];
                        inbox := [("send"%string, [PStr "sleep"], [])] |})
               init)).
Proof. eexists. reflexivity. Qed.

(** C8 fails: a Lord started without waiting has a live process and no state
    yet; [start(wait=True)] on it returns at once, and [state()] is [None]. *)
Lemma start_wait_noop_leaves_no_state :
  let serf := {| reports := []; lifespan := Some 5%nat |} in
  exists s0 s1,
    start serf false init = Return tt s0
    /\ start serf true s0 = Return tt s1
    /\ state PNone (PBool false) s1 = Return PNone s1.
Proof.
  cbv zeta. do 2 eexists. repeat split; reflexivity.
Qed.

(** A Lord that kept the state [exit] of an earlier run is restarted on a
    serf that reports nothing: [start(wait=True)] returns at once on the old
    state, which [start] does not reset. *)
Example start_wait_accepts_old_state :
  let serf := {| reports := []; lifespan := None |} in
  let s := set_state (PStr "exit") init in
  start serf true s = Return tt (spawn serf s).
Proof. reflexivity. Qed.

(** C8, amended.  [start] changes nothing when the process is alive.  When
    there is no live process and [start(wait=True)] returns, the cached state
    is not [None], and [state()] returns it. *)
Theorem start_contract (serf_class : Serf) (s : Lord) :
  (forall wait, has_live_process s = true ->
     start serf_class wait s = Return tt (asked s))
  /\ (forall s', has_live_process s = false ->
        start serf_class true s = Return tt s' ->
        _state s' <> PNone
        /\ state PNone (PBool false) s' = Return (_state s') s').
Proof.
  unfold has_live_process, asked, start. split.
  - intros wait L. destruct (process s) as [p|]; [|discriminate].
    destruct (is_alive p) as [alive p']. simpl in *. subst alive.
    reflexivity.
  - intros s' L H. split; [|reflexivity].
    destruct (process s) as [p|].
    + destruct (is_alive p) as [alive p']. simpl in L. subst alive.
      now apply wait_for_state_returns in H.
    + now apply wait_for_state_returns in H.
Qed.

Lemma start_contract_witness :
  let serf := {| reports := [("state"%string, [PStr "ready"], [])];
                 lifespan := Some 5%nat |} in
  let s1 := spawn serf (set_state (PStr "ready") init) in
  let s2 := set_pipe (Some {| outbox := []; inbox := [] |})
              (set_state (PStr "ready") (spawn serf init)) in
  has_live_process s1 = true
  /\ start serf true s1 = Return tt (asked s1)
  /\ has_live_process init = false
  /\ start serf true init = Return tt s2
  /\ (_state s2 <> PNone
      /\ state PNone (PBool false) s2 = Return (_state s2) s2).
Proof.
  cbv zeta. split; [reflexivity|]. split.
  - apply (proj1 (start_contract
                    {| reports := [("state"%string, [PStr "ready"], [])];
                       lifespan := Some 5%nat |}
                    (spawn {| reports := [("state"%string, [PStr "ready"], [])];
                              lifespan := Some 5%nat |}
                       (set_state (PStr "ready") init))) true).
    reflexivity.
  - split; [reflexivity|]. split; [reflexivity|].
    apply (proj2 (start_contract
                    {| reports := [("state"%string, [PStr "ready"], [])];
                       lifespan := Some 5%nat |} init)); reflexivity.
Defined.









(** The draining loop at the end of the pipe: when [update] raises
    [EOFError], which [Connection.recv] does once the serf has exited and
    nothing is left to read, the exception comes out of [stop]: [exit] was
    sent, and the handle is not cleared. *)
Example stop_with_update_at_end_of_pipe :
  let s := spawn {| reports := []; lifespan := Some 2%nat |} init in
  stop_with reliable_send (fun s0 => Raise EOFError s0) 2 true s
  = Raise EOFError
      (set_process (Some dead)
         (set_pipe (Some {| outbox := [exit_message]; inbox := [] |}) init)).
Proof. reflexivity. Qed.

(** A pipe that refuses the write: [stop] raises what [send] raises, before
    the loop, and the handle is not cleared. *)
Example stop_with_pipe_closed :
  let s := spawn {| reports := []; lifespan := Some 2%nat |} init in
  stop_with (fun _ _ => inl BrokenPipeError) update 2 true s
  = Raise BrokenPipeError (asked s).
Proof. reflexivity. Qed.

(** C10.  [state] with [new_state=None] reads and never writes: without
    [update] it returns the cached state and leaves the Lord as it is, and
    whatever it returns is the cached state of the Lord it leaves.  No call
    of [state] turns a cached state that is not [None] into [None].  A
    pending state report whose value is [None] is drained by [update]
    without any change to the cached state. *)
Theorem state_none_is_getter (s : Lord) :
  (forall upd, py_truthy upd = false ->
     state PNone upd s = Return (_state s) s)
  /\ (forall upd v s', state PNone upd s = Return v s' -> v = _state s')
  /\ (forall new_state upd s', _state s <> PNone ->
        after (state new_state upd s) = Some s' -> _state s' <> PNone)
  /\ (forall p rest, pipe s = Some p ->
        inbox p = ("state"%string, [PNone], []) :: rest ->
        exists s', after (update s) = Some s' /\ _state s' = _state s).
Proof.
  split; [|split; [|split]].
  - intros upd T. unfold state, state_with. simpl. now rewrite T.
  - intros upd v s'. unfold state, state_with. simpl.
    destruct (py_truthy upd).
    + destruct (update s) as [[] s1|e s1| | |]; simpl; try discriminate.
      intros H. now inversion H.
    + intros H. now inversion H.
  - intros new_state upd s' N H.
    pose proof (@state_with_framed update new_state upd s
                  (@update_framed s) s' H) as F.
    now apply (fr_state F).
  - intros p rest P I. rewrite (update_eq s P I).
    change (call_attr update "state" [PNone] [] (consume s))
      with (@Return unit tt (consume s)).
    simpl.
    destruct (run_callbacks_only_calls "state" [PNone] [] (consume s))
      as [s' [A O]].
    exists s'. split; [exact A|].
    apply oc_state in O. now rewrite O, state_consume.
Qed.

Lemma state_none_is_getter_witness :
  let p := {| outbox := []; inbox := [("state"%string, [PNone], [])] |} in
  let s := set_state (PInt 5) (set_pipe (Some p) init) in
  py_truthy (PBool false) = false
  /\ state PNone (PBool false) s = Return (_state s) s
  /\ _state s <> PNone
  /\ _state (set_state (PInt 6) s) <> PNone
  /\ pipe s = Some p
  /\ exists s', after (update s) = Some s' /\ _state s' = _state s.
Proof.
  cbv zeta.
  pose (p := {| outbox := []; inbox := [("state"%string, [PNone], [])] |}).
  pose (s := set_state (PInt 5) (set_pipe (Some p) init)).
  assert (N : _state s <> PNone) by discriminate.
  split; [reflexivity|]. split; [|split; [exact N|split; [|split]]].
  - apply (proj1 (state_none_is_getter s)). reflexivity.
  - apply (proj1 (proj2 (proj2 (state_none_is_getter s)))
             (PInt 6) (PBool false) _ N).
    reflexivity.
  - reflexivity.
  - apply (proj2 (proj2 (proj2 (state_none_is_getter s))) p []); reflexivity.
Defined.

(** * Further properties of the Lord *)

(** ** The callback table over whole sessions *)

Lemma run_session_grows (rs : list request) (s s' : Lord) :
  run_session rs s = Some s' -> grows s s'.
Proof.
  revert s. induction rs as [|r rest IH]; intros s; simpl.
  - intros H. inversion H. apply grows_refl.
  - destruct (after (perform r s)) as [s1|] eqn:P; [|discriminate].
    intros H. apply grows_trans with (s2 := s1);
      [apply perform_grows with (r := r); exact P | apply IH; exact H].
Qed.

(** X1.  No session adds an event name to the callback table or takes one
    away: whatever is called on a Lord ([attach], [detatch], [state], [send],
    [update], [start], [stop], in any order), the table has the keys it had.
    On a Lord made by [__init__] the table therefore stays empty, and the
    callback block of [update] calls nothing, for any message. *)
Theorem session_keeps_table_keys (rs : list request) (s s' : Lord) :
  run_session rs s = Some s' ->
  dict_keys (callbacks s') = dict_keys (callbacks s)
  /\ (callbacks s = [] ->
      callbacks s' = []
      /\ forall attr args kwargs,
           run_callbacks attr args kwargs s' = Return tt s').
Proof.
  intros H. apply run_session_grows in H. destruct H as [K _ _].
  split; [exact K|]. intros E. rewrite E in K.
  assert (C : callbacks s' = []).
  { destruct (callbacks s'); [reflexivity|discriminate]. }
  split; [exact C|]. intros attr args kwargs.
  unfold run_callbacks. now rewrite C.
Qed.

Lemma session_keeps_table_keys_witness :
  let rs := [Start {| reports := [("state"%string, [PInt 5], [])];
                      lifespan := None |} true;
             Attach "state" (PFunc 7); Detatch (PInt 0); Update] in
  let s' := set_cbindex 1
              (set_state (PInt 5)
                 (spawn {| reports := []; lifespan := None |} init)) in
  run_session rs init = Some s'
  /\ dict_keys (callbacks s') = dict_keys (callbacks init)
  /\ (callbacks init = [] ->
      callbacks s' = []
      /\ forall attr args kwargs,
           run_callbacks attr args kwargs s' = Return tt s').
Proof.
  cbv zeta. split; [reflexivity|].
  exact (@session_keeps_table_keys
           [Start {| reports := [("state"%string, [PInt 5], [])];
                     lifespan := None |} true;
            Attach "state" (PFunc 7); Detatch (PInt 0); Update]
           init _ eq_refl).
Defined.

(** X2.  Once the cached state is not [None], no session makes it [None]
    again: neither a report, nor [stop], nor a restart resets it. *)
Theorem session_keeps_state_set (rs : list request) (s s' : Lord) :
  _state s <> PNone -> run_session rs s = Some s' -> _state s' <> PNone.
Proof.
  intros N H. apply run_session_grows in H. now apply (gr_state H).
Qed.

Lemma session_keeps_state_set_witness :
  let s := set_state (PStr "ready")
             (spawn {| reports := [("state"%string, [PNone], [])];
                       lifespan := Some 1%nat |} init) in
  let rs := [Update; Stop true;
             Start {| reports := []; lifespan := None |} true] in
  _state s <> PNone
  /\ run_session rs s
     = Some (spawn {| reports := []; lifespan := None |}
               (set_state (PStr "ready") init))
  /\ _state (spawn {| reports := []; lifespan := None |}
               (set_state (PStr "ready") init)) <> PNone.
Proof.
  cbv zeta.
  assert (N : _state (set_state (PStr "ready")
                        (spawn {| reports := [("state"%string, [PNone], [])];
                                  lifespan := Some 1%nat |} init)) <> PNone)
    by discriminate.
  split; [exact N|]. split; [reflexivity|].
  exact (@session_keeps_state_set
           [Update; Stop true; Start {| reports := []; lifespan := None |} true]
           _ _ N eq_refl).
Defined.

(** ** [attach] and [detatch], in full *)

Lemma delitem_equal_type_error (v cbid : pyval) :
  py_eq v cbid = true -> delitem v cbid = inl TypeError.
Proof.
  destruct v, cbid; simpl; try discriminate; intros _; reflexivity.
Qed.

Lemma delete_equal_stored (cbid : pyval) (cbs : pydict) :
  delete_equal cbid cbs
  = if stored cbid cbs then Some (inl TypeError) else None.
Proof.
  unfold stored. induction cbs as [|[k v] rest IH]; simpl; [reflexivity|].
  destruct (py_eq v cbid) eqn:E; simpl.
  - now rewrite (delitem_equal_type_error _ _ E).
  - rewrite IH. now destruct (existsb _ rest).
Qed.

(** X3.  [detatch] raises on every input and removes nothing: [ValueError]
    when no value of the table equals the id, [TypeError] when one does (the
    item [cbid] cannot be deleted from an object equal to [cbid]).  The Lord
    is left as it was. *)
Theorem detatch_raises_always (cbid : pyval) (s : Lord) :
  detatch cbid s
  = Raise (if stored cbid (callbacks s) then TypeError else ValueError) s.
Proof.
  unfold detatch. rewrite delete_equal_stored.
  now destruct (stored cbid (callbacks s)).
Qed.

Lemma stored_reset_unequal (a : string) (cbs : pydict) :
  stored (PStr a) (reset_unequal (PStr a) cbs) = stored (PStr a) cbs.
Proof.
  unfold stored, reset_unequal.
  induction cbs as [|[k v] rest IH]; simpl; [reflexivity|].
  rewrite IH. destruct (py_eq v (PStr a)) eqn:E; simpl; now rewrite ?E.
Qed.



(** X5.  [attach] raises exactly when some value of the table is the event
    name itself, as a string; it then raises [TypeError], after the counter
    went up: the id is used up, and no later [attach] of any session hands
    it out. *)
Theorem attach_raises_when_name_stored (a : string) (func : pyval) (s : Lord) :
  (stored (PStr a) (callbacks s) = false ->
   exists s', attach a func s = Return (_cbindex s) s')
  /\ (stored (PStr a) (callbacks s) = true ->
      exists s',
        attach a func s = Raise TypeError s'
        /\ _cbindex s' = (_cbindex s + 1)%Z
        /\ forall rs, Forall (fun i => (_cbindex s < i)%Z) (attach_ids rs s')).
Proof.
  rewrite attach_eq. cbv zeta.
  pose proof (stored_reset_unequal a (callbacks s)) as R. unfold stored in *.
  rewrite R. split; intros E; rewrite E; eexists; [reflexivity|].
  split; [reflexivity|]. split; [reflexivity|].
  intros rs. destruct (attach_ids_above rs
    (set_cbindex (_cbindex s + 1)%Z
       (set_callbacks (reset_unequal (PStr a) (callbacks s)) s))) as [A _].
  simpl in A. eapply Forall_impl; [|exact A]. simpl. intros. lia.
Qed.

Lemma attach_raises_when_name_stored_witness :
  let s := set_callbacks [(KStr "state", PStr "state")] init in
  stored (PStr "state") (callbacks init) = false
  /\ (exists s', attach "state" (PFunc 7) init = Return (_cbindex init) s')
  /\ stored (PStr "state") (callbacks s) = true
  /\ exists s',
       attach "state" (PFunc 7) s = Raise TypeError s'
       /\ _cbindex s' = (_cbindex s + 1)%Z
       /\ forall rs, Forall (fun i => (_cbindex s < i)%Z) (attach_ids rs s').
Proof.
  cbv zeta. split; [reflexivity|]. split.
  - apply (proj1 (attach_raises_when_name_stored "state" (PFunc 7) init)).
    reflexivity.
  - split; [reflexivity|].
    apply (proj2 (attach_raises_when_name_stored "state" (PFunc 7)
                    (set_callbacks [(KStr "state", PStr "state")] init))).
    reflexivity.
Defined.

(** ** What one [update] does *)

Lemma run_callbacks_subscribers (attr : string) (args : pyargs)
  (kwargs : pykwargs) (s : Lord) :
  run_callbacks attr args kwargs s
  = match dict_get (KStr attr) (callbacks s) with
    | None => Return tt s
    | Some g => call_each (subscribers g) args kwargs s
    end.
Proof.
  unfold run_callbacks. destruct (dict_get _ _) as [[]|]; reflexivity.
Qed.

Lemma add_calls_cons (c : call) (cs : list call) (s : Lord) :
  add_calls cs (add_call c s) = add_calls (c :: cs) s.
Proof.
  unfold add_calls, add_call. simpl. now rewrite <- app_assoc.
Qed.

Lemma add_calls_nil (s : Lord) : add_calls [] s = s.
Proof.
  unfold add_calls. rewrite app_nil_r. now destruct s.
Qed.

Lemma call_each_callables (ns : list nat) (rest : list pyval) (args : pyargs)
  (kwargs : pykwargs) (s : Lord) :
  call_each (map PFunc ns ++ rest) args kwargs s
  = (_ <- Return tt (add_calls (calls_of ns args kwargs) s) ;;
     call_each rest args kwargs).
Proof.
  revert s. induction ns as [|n ns IH]; intros s; simpl.
  - now rewrite add_calls_nil.
  - rewrite IH. simpl. now rewrite add_calls_cons.
Qed.

Lemma call_attr_state_report (f : Lord -> outcome unit) (v : pyval) (s : Lord) :
  call_attr f "state" [v] [] s = Return tt (report v s).
Proof.
  unfold call_attr, report. simpl. unfold state_with.
  destruct v; reflexivity.
Qed.

Lemma callbacks_report (v : pyval) (s : Lord) :
  callbacks (report v s) = callbacks s.
Proof. unfold report. now destruct (is_none v). Qed.

Lemma update_state_report_eq (s : Lord) (p : Pipe) (v : pyval)
  (rest : list message) :
  pipe s = Some p -> inbox p = ("state"%string, [v], []) :: rest ->
  update s = run_callbacks "state" [v] [] (report v (consume s)).
Proof.
  intros P I. rewrite (update_eq s P I), call_attr_state_report. reflexivity.
Qed.

(** X6.  The dispatch of [update] on a table that holds callables.  For a
    pending state report [v], when the table has under [state] a dictionary
    of callables, a list of callables or one callable, [update] caches [v]
    (unless it is [None]) and then calls each of them once with [(v)], in the
    order of the dictionary or list, and returns. *)
Theorem update_notifies_in_order (s : Lord) (p : Pipe) (v : pyval)
  (rest : list message) (g : pyval) (ns : list nat) :
  pipe s = Some p ->
  inbox p = ("state"%string, [v], []) :: rest ->
  dict_get (KStr "state") (callbacks s) = Some g ->
  subscribers g = map PFunc ns ->
  update s
  = Return tt (add_calls (calls_of ns [v] []) (report v (consume s))).
Proof.
  intros P I G S. rewrite (update_state_report_eq s P I).
  rewrite run_callbacks_subscribers, callbacks_report, callbacks_consume, G, S.
  rewrite <- (app_nil_r (map PFunc ns)), call_each_callables. reflexivity.
Qed.

Lemma update_notifies_in_order_witness :
  let g := PDict [(KInt 0, PFunc 7); (KInt 1, PFunc 8)] in
  let p := {| outbox := []; inbox := [("state"%string, [PInt 5], [])] |} in
  let s := set_callbacks [(KStr "state", g)] (set_pipe (Some p) init) in
  pipe s = Some p
  /\ inbox p = ("state"%string, [PInt 5], []) :: []
  /\ dict_get (KStr "state") (callbacks s) = Some g
  /\ subscribers g = map PFunc [7%nat; 8%nat]
  /\ update s
     = Return tt (add_calls (calls_of [7%nat; 8%nat] [PInt 5] [])
                    (report (PInt 5) (consume s))).
Proof.
  cbv zeta. split; [reflexivity|]. split; [reflexivity|].
  split; [reflexivity|]. split; [reflexivity|].
  exact (@update_notifies_in_order
           (set_callbacks
              [(KStr "state", PDict [(KInt 0, PFunc 7); (KInt 1, PFunc 8)])]
              (set_pipe (Some {| outbox := [];
                                 inbox := [("state"%string, [PInt 5], [])] |})
                 init))
           _ (PInt 5) [] _ [7%nat; 8%nat] eq_refl eq_refl eq_refl eq_refl).
Defined.

(** X7.  [update] is not all-or-nothing.  When an object that is not callable
    sits among the subscribers of [state], [update] raises [TypeError] at
    that object: the reported state is cached by then and the callables before
    it were called; the ones after it are not. *)
Theorem update_stops_at_uncallable (s : Lord) (p : Pipe) (v : pyval)
  (rest : list message) (g : pyval) (ns : list nat) (bad : pyval)
  (others : list pyval) :
  pipe s = Some p ->
  inbox p = ("state"%string, [v], []) :: rest ->
  dict_get (KStr "state") (callbacks s) = Some g ->
  subscribers g = map PFunc ns ++ bad :: others ->
  is_callable bad = false ->
  update s
  = Raise TypeError (add_calls (calls_of ns [v] []) (report v (consume s))).
Proof.
  intros P I G S B. rewrite (update_state_report_eq s P I).
  rewrite run_callbacks_subscribers, callbacks_report, callbacks_consume, G, S.
  rewrite call_each_callables. simpl. destruct bad; try reflexivity.
  discriminate.
Qed.

Lemma update_stops_at_uncallable_witness :
  let g := PList [PFunc 7; PInt 3; PFunc 8] in
  let p := {| outbox := []; inbox := [("state"%string, [PInt 5], [])] |} in
  let s := set_callbacks [(KStr "state", g)] (set_pipe (Some p) init) in
  pipe s = Some p
  /\ inbox p = ("state"%string, [PInt 5], []) :: []
  /\ dict_get (KStr "state") (callbacks s) = Some g
  /\ subscribers g = map PFunc [7%nat] ++ PInt 3 :: [PFunc 8]
  /\ is_callable (PInt 3) = false
  /\ update s
     = Raise TypeError (add_calls (calls_of [7%nat] [PInt 5] [])
                          (report (PInt 5) (consume s))).
Proof.
  cbv zeta. split; [reflexivity|]. split; [reflexivity|].
  split; [reflexivity|]. split; [reflexivity|]. split; [reflexivity|].
  exact (@update_stops_at_uncallable
           (set_callbacks [(KStr "state", PList [PFunc 7; PInt 3; PFunc 8])]
              (set_pipe (Some {| outbox := [];
                                 inbox := [("state"%string, [PInt 5], [])] |})
                 init))
           _ (PInt 5) [] _ [7%nat] (PInt 3) [PFunc 8]
           eq_refl eq_refl eq_refl eq_refl eq_refl).
Defined.

Lemma detatch_raises_always_aux (cbid : pyval) (s : Lord) :
  discard (detatch cbid s)
  = Raise (if stored cbid (callbacks s) then TypeError else ValueError) s.
Proof.
  unfold detatch. rewrite delete_equal_stored.
  now destruct (stored cbid (callbacks s)).
Qed.

Lemma call_attr_keeps_inbox (f : Lord -> outcome unit) (attr : string)
  (args : pyargs) (kwargs : pykwargs) (s s' : Lord) :
  lookup_member attr <> Method_state ->
  after (call_attr f attr args kwargs s) = Some s' ->
  option_map inbox (pipe s') = option_map inbox (pipe s).
Proof.
  intros N. unfold call_attr, error.
  destruct (lookup_member attr); try congruence; clear N;
    repeat match goal with
           | |- after (match ?x with _ => _ end) = _ -> _ =>
               match x with
               | pipe s => destruct x eqn:Heqo
               | _ => destruct x
               end
           end;
    try (simpl; intros H; inversion H; subst; reflexivity);
    try (simpl; discriminate).
  - rewrite attach_eq. cbv zeta.
    destruct (existsb _ _); simpl; intros H; inversion H; reflexivity.
  - rewrite detatch_raises_always_aux. simpl. intros H. now inversion H.
  - unfold send. destruct p; try (simpl; intros H; now inversion H).
    destruct (pipe s) as [q|] eqn:Q; simpl; intros H; inversion H; subst;
      simpl; now rewrite ?Q.
  - unfold send. destruct p; try (simpl; intros H; now inversion H).
    destruct (pipe s) as [q|] eqn:Q; simpl; intros H; inversion H; subst;
      simpl; now rewrite ?Q.
  - destruct (_state s); simpl; intros H; inversion H; reflexivity.
  - simpl. intros H. inversion H; subst. now rewrite Heqo.
  - simpl. intros H. inversion H; subst. now rewrite Heqo.
Qed.

Lemma lookup_member_state (attr : string) :
  lookup_member attr = Method_state -> attr = "state"%string.
Proof.
  unfold lookup_member.
  repeat match goal with
         | |- (if ?b then _ else _) = _ -> _ => destruct b eqn:?
         end; try discriminate.
  intros _. now apply String.eqb_eq.
Qed.

Lemma pipe_consume (s : Lord) (p : Pipe) (m : message) (rest : list message) :
  pipe s = Some p -> inbox p = m :: rest ->
  pipe (consume s) = Some {| outbox := outbox p; inbox := rest |}.
Proof.
  intros P I. unfold consume. rewrite P. simpl. now rewrite I.
Qed.

(** X8.  Of the messages the model covers, only one that names [state] makes
    [update] read further: an [update] that comes back, having found a
    message, took at least that message off the pipe, and exactly that one
    unless the message names [state] ([state(None, update=True)] called from
    a message reads on).  A message that names [start], [stop], [update] or a
    double-underscore attribute is outside the model, where [update] answers
    [Beyond]: in the code [getattr] calls the method named, which reads on
    ([update], [stop], [__del__]) or replaces the pipe ([start]), and nothing
    is said of it here; the same holds for [attach] called from a message
    with a name that is not a string. *)
Theorem update_reads_one_message (s : Lord) (p : Pipe) (attr : string)
  (args : pyargs) (kwargs : pykwargs) (rest : list message) :
  pipe s = Some p ->
  inbox p = (attr, args, kwargs) :: rest ->
  (forall s', after (update s) = Some s' ->
     (pending s' <= List.length rest)%nat
     /\ (attr <> "state"%string ->
         exists p', pipe s' = Some p' /\ inbox p' = rest))
  /\ (reenters attr = true -> update s = Beyond).
Proof.
  intros P I. split.
  - intros s' H. split.
    + pose proof (update_framed_consume s P I H) as F. apply fr_pending in F.
      pose proof (pending_consume s P I) as C. unfold pending in C at 1.
      rewrite P, I in C. simpl in C. lia.
    + intros N.
      assert (M : lookup_member attr <> Method_state)
        by (intros E; apply N, lookup_member_state, E).
      rewrite (update_eq s P I) in H.
      pose proof (@call_attr_keeps_inbox update attr args kwargs (consume s))
        as K.
      assert (Q : forall s1, option_map inbox (pipe s1)
                             = option_map inbox (pipe (consume s)) ->
                  exists p', pipe s1 = Some p' /\ inbox p' = rest).
      { intros s1 E. rewrite (pipe_consume s P I) in E. simpl in E.
        destruct (pipe s1) as [p'|]; [|discriminate].
        exists p'. split; [reflexivity|]. simpl in E. now inversion E. }
      destruct (call_attr update attr args kwargs (consume s))
        as [[] s1|e s1| | |]; simpl in H; try discriminate.
      * destruct (run_callbacks_only_calls attr args kwargs s1) as [s2 [A O]].
        rewrite H in A. inversion A; subst s2.
        apply Q. rewrite (oc_pipe O). now apply K.
      * inversion H; subst. apply Q. now apply K.
  - intros R. rewrite (update_eq s P I). unfold call_attr, reenters in *.
    destruct (lookup_member attr); try discriminate; reflexivity.
Qed.

Lemma update_reads_one_message_witness :
  let p := {| outbox := [];
              inbox := [("send"%string, [PStr "sleep"], []);
                        ("state"%string, [PInt 5], [])] |} in
  let s := set_pipe (Some p) init in
  let s' := set_pipe (Some {| outbox := [("sleep"%string, [], [])];
                              inbox := [("state"%string, [PInt 5], [])] |})
              init in
  pipe s = Some p
  /\ inbox p = [("send"%string, [PStr "sleep"], []);
                 ("state"%string, [PInt 5], [])]
  /\ after (update s) = Some s'
  /\ (pending s' <= List.length (tl (inbox p)))%nat
  /\ ("send"%string <> "state"%string ->
      exists p', pipe s' = Some p' /\ inbox p' = tl (inbox p)).
Proof.
  cbv zeta. split; [reflexivity|]. split; [reflexivity|].
  split; [reflexivity|].
  exact (proj1 (@update_reads_one_message
                  (set_pipe
                     (Some {| outbox := [];
                              inbox := [("send"%string, [PStr "sleep"], []);
                                        ("state"%string, [PInt 5], [])] |})
                     init)
                  _ "send"%string [PStr "sleep"] [] _ eq_refl eq_refl)
               _ eq_refl).
Defined.

(** A message that calls [state(None, True)] makes the same [update] read the
    next message too: both are gone after one call. *)
Example update_reads_on_through_state :
  let p := {| outbox := [];
              inbox := [("state"%string, [PNone; PBool true], []);
                        ("state"%string, [PInt 3], [])] |} in
  update (set_pipe (Some p) init)
  = Return tt (set_state (PInt 3)
                 (set_pipe (Some {| outbox := []; inbox := [] |}) init)).
Proof. reflexivity. Qed.

(** X9.  A message that names a data attribute of the Lord makes [update]
    raise [TypeError]: [process], [_cbindex], [callbacks] and [pipe] hold
    objects that cannot be called, and so does [_state] unless the cached
    state is a callable.  The message is gone and nothing else changed. *)
Theorem update_data_attribute_raises (s : Lord) (p : Pipe) (attr : string)
  (args : pyargs) (kwargs : pykwargs) (rest : list message) :
  pipe s = Some p ->
  inbox p = (attr, args, kwargs) :: rest ->
  attr = "process"%string \/ attr = "_cbindex"%string
  \/ attr = "callbacks"%string \/ attr = "pipe"%string
  \/ (attr = "_state"%string /\ is_callable (_state s) = false) ->
  update s = Raise TypeError (consume s).
Proof.
  intros P I A. rewrite (update_eq s P I).
  assert (Q : pipe (consume s) <> None)
    by (rewrite (pipe_consume s P I); discriminate).
  destruct A as [->|[->|[->|[->|[-> C]]]]]; unfold call_attr; simpl;
    try reflexivity.
  - destruct (pipe (consume s)); [reflexivity|congruence].
  - rewrite state_consume. destruct (_state s); try reflexivity. discriminate.
Qed.

Lemma update_data_attribute_raises_witness :
  let p := {| outbox := []; inbox := [("callbacks"%string, [], [])] |} in
  let s := set_pipe (Some p) init in
  pipe s = Some p
  /\ inbox p = ("callbacks"%string, [], []) :: []
  /\ update s = Raise TypeError (consume s).
Proof.
  cbv zeta. split; [reflexivity|]. split; [reflexivity|].
  apply (@update_data_attribute_raises
           (set_pipe (Some {| outbox := [];
                              inbox := [("callbacks"%string, [], [])] |}) init)
           _ "callbacks"%string [] [] [] eq_refl eq_refl).
  right. right. left. reflexivity.
Defined.

(** ** Before the first [start], and the direct use of [state] *)

(** X10.  A Lord that was never started has no pipe: [update],
    [state(update=True)] and [send] with a string raise [AttributeError] and
    change nothing, while dropping such a Lord ([__del__]) does nothing as
    long as it has no process. *)
Theorem no_pipe_before_start (s : Lord) :
  pipe s = None ->
  update s = Raise AttributeError s
  /\ (forall upd, py_truthy upd = true ->
        state PNone upd s = Raise AttributeError s)
  /\ (forall a args kwargs, send (PStr a) args kwargs s = Raise AttributeError s)
  /\ (process s = None -> __del__ s = Return tt s).
Proof.
  intros P.
  assert (U : update s = Raise AttributeError s) by now apply update_no_pipe.
  split; [exact U|]. split; [|split].
  - intros upd T. unfold state, state_with. simpl. now rewrite T, U.
  - intros a args kwargs. unfold send. now rewrite P.
  - intros Q. unfold __del__, stop. now rewrite Q.
Qed.

Lemma no_pipe_before_start_witness :
  pipe init = None
  /\ update init = Raise AttributeError init
  /\ state PNone (PBool true) init = Raise AttributeError init
  /\ send (PStr "sleep") [] [] init = Raise AttributeError init
  /\ __del__ init = Return tt init.
Proof.
  pose proof (no_pipe_before_start init eq_refl) as [U [S [N D]]].
  split; [reflexivity|]. split; [exact U|]. split; [|split].
  - apply S. reflexivity.
  - apply N.
  - apply D. reflexivity.
Defined.

(** [state(v)] with [v] other than [None] caches [v] and returns
    [None]; it reads nothing from the pipe, even with [update=True]; a
    following [state()] returns [v]. *)
Theorem state_set_then_get (v upd : pyval) (s : Lord) :
  v <> PNone ->
  state v upd s = Return PNone (set_state v s)
  /\ pipe (set_state v s) = pipe s
  /\ state PNone (PBool false) (set_state v s) = Return v (set_state v s).
Proof.
  intros N. unfold state, state_with.
  destruct v; try (now destruct N); repeat split.
Qed.

Lemma state_set_then_get_witness :
  let p := {| outbox := []; inbox := [("state"%string, [PInt 1], [])] |} in
  let s := set_pipe (Some p) init in
  PInt 5 <> PNone
  /\ state (PInt 5) (PBool true) s = Return PNone (set_state (PInt 5) s)
  /\ pipe (set_state (PInt 5) s) = pipe s
  /\ state PNone (PBool false) (set_state (PInt 5) s)
     = Return (PInt 5) (set_state (PInt 5) s).
Proof.
  cbv zeta.
  assert (N : PInt 5 <> PNone) by discriminate.
  split; [exact N|].
  exact (@state_set_then_get (PInt 5) (PBool true)
           (set_pipe (Some {| outbox := [];
                              inbox := [("state"%string, [PInt 1], [])] |})
              init) N).
Defined.

Lemma bind_params_too_many (params : list (string * option pyval))
  (args : pyargs) (kwargs : pykwargs) :
  (List.length params < List.length args)%nat ->
  bind_params params args kwargs = None.
Proof.
  revert args. induction params as [|[name dflt] ps IH]; intros args L.
  - destruct args; [simpl in L; lia|reflexivity].
  - destruct args as [|a args']; [simpl in L; lia|]. simpl.
    destruct (kw_get name kwargs); [reflexivity|].
    rewrite IH; [reflexivity|simpl in L; lia].
Qed.

(** X11.  A message [state] with more than two positional values does not
    fit [state(new_state, update)]: [update] raises [TypeError], the cached
    state is left alone and the message is gone. *)
Theorem update_state_arity_error (s : Lord) (p : Pipe) (args : pyargs)
  (kwargs : pykwargs) (rest : list message) :
  pipe s = Some p ->
  inbox p = ("state"%string, args, kwargs) :: rest ->
  (2 < List.length args)%nat ->
  update s = Raise TypeError (consume s)
  /\ _state (consume s) = _state s.
Proof.
  intros P I L. split; [|apply state_consume].
  rewrite (update_eq s P I). unfold call_attr. simpl lookup_member. cbv iota.
  now rewrite (@bind_params_too_many state_params args kwargs L).
Qed.

Lemma update_state_arity_error_witness :
  let p := {| outbox := [];
              inbox := [("state"%string, [PInt 1; PInt 2; PInt 3], [])] |} in
  let s := set_pipe (Some p) init in
  pipe s = Some p
  /\ inbox p = [("state"%string, [PInt 1; PInt 2; PInt 3], [])]
  /\ (2 < List.length [PInt 1; PInt 2; PInt 3])%nat
  /\ update s = Raise TypeError (consume s)
  /\ _state (consume s) = _state s.
Proof.
  cbv zeta. split; [reflexivity|]. split; [reflexivity|].
  split; [simpl; lia|].
  apply (@update_state_arity_error
           (set_pipe
              (Some {| outbox := [];
                       inbox := [("state"%string,
                                  [PInt 1; PInt 2; PInt 3], [])] |}) init)
           _ [PInt 1; PInt 2; PInt 3] [] [] eq_refl eq_refl).
  simpl. lia.
Defined.

(** ** [start]: what the waiting loop does *)

Lemma wait_for_state_set (n : nat) (s : Lord) :
  _state s <> PNone -> wait_for_state (S n) s = discard (update s).
Proof.
  intros N. simpl. unfold state, state_with, discard. simpl.
  pose proof (@update_framed s) as F.
  destruct (update s) as [[] s1|e s1| | |]; simpl; try reflexivity.
  specialize (F s1 eq_refl). apply fr_state in F; [|exact N].
  destruct (_state s1); try reflexivity. now destruct F.
Qed.

(** X12.  [start] does not reset the cached state, so on a Lord whose cached
    state is not [None] (one that ran before), [start(wait=True)] does not
    wait for the new serf: it spawns, makes one [update] and returns with
    whatever that [update] did.  When the serf has written nothing yet, it
    returns at once. *)
Theorem restart_does_not_wait (serf_class : Serf) (s : Lord) :
  _state s <> PNone ->
  has_live_process s = false ->
  start serf_class true s = discard (update (spawn serf_class (asked s)))
  /\ (reports serf_class = [] ->
      start serf_class true s = Return tt (spawn serf_class (asked s))).
Proof.
  intros N L.
  assert (E : start serf_class true s
              = discard (update (spawn serf_class (asked s)))).
  { unfold start, has_live_process, asked in *.
    destruct (process s) as [p|].
    - destruct (is_alive p) as [alive p']. simpl in L. subst alive.
      now apply wait_for_state_set.
    - now apply wait_for_state_set. }
  split; [exact E|]. intros R. rewrite E.
  rewrite (@update_idle (spawn serf_class (asked s))
             {| outbox := []; inbox := reports serf_class |} eq_refl R).
  reflexivity.
Qed.

Lemma restart_does_not_wait_witness :
  let serf := {| reports := []; lifespan := None |} in
  let s := set_state (PStr "exit") init in
  _state s <> PNone
  /\ has_live_process s = false
  /\ start serf true s = discard (update (spawn serf (asked s)))
  /\ (reports serf = [] -> start serf true s = Return tt (spawn serf (asked s))).
Proof.
  cbv zeta.
  assert (N : _state (set_state (PStr "exit") init) <> PNone) by discriminate.
  split; [exact N|]. split; [reflexivity|].
  exact (@restart_does_not_wait {| reports := []; lifespan := None |}
           (set_state (PStr "exit") init) N eq_refl).
Defined.

(** X13.  On a Lord with no cached state, when the first thing the spawned
    serf writes is an error signal, [start(wait=True)] raises its
    [SerfError]: with no state the loop reads on until a message comes, and
    the first to come is the signal.  The process was spawned by then and its
    handle stays on the Lord. *)
Theorem start_raises_on_error_signal (serf_class : Serf) (args : pyargs)
  (kwargs : pykwargs) (more : list message) (s : Lord) :
  _state s = PNone ->
  has_live_process s = false ->
  reports serf_class = ("error"%string, args, kwargs) :: more ->
  start serf_class true s
  = Raise (SerfError args kwargs) (consume (spawn serf_class (asked s)))
  /\ process (consume (spawn serf_class (asked s)))
     = Some {| lifetime := lifespan serf_class |}
  /\ _state (consume (spawn serf_class (asked s))) = PNone.
Proof.
  intros N L R.
  assert (W : forall s0,
            wait_for_state (S (pending (spawn serf_class s0)))
              (spawn serf_class s0)
            = Raise (SerfError args kwargs) (consume (spawn serf_class s0))).
  { intros s0. simpl. unfold state, state_with. simpl.
    rewrite (@update_eq (spawn serf_class s0)
               {| outbox := []; inbox := reports serf_class |}
               "error" args kwargs more eq_refl R).
    reflexivity. }
  split; [|split].
  - unfold start, has_live_process, asked in *.
    destruct (process s) as [p|]; [|apply W].
    destruct (is_alive p) as [alive p']. simpl in L. subst alive. apply W.
  - unfold consume. simpl. reflexivity.
  - unfold consume, asked. simpl.
    destruct (process s); simpl; exact N.
Qed.

Lemma start_raises_on_error_signal_witness :
  let serf := {| reports := [("error"%string, [PStr "boom"], [])];
                 lifespan := None |} in
  _state init = PNone
  /\ has_live_process init = false
  /\ reports serf = ("error"%string, [PStr "boom"], []) :: []
  /\ start serf true init
     = Raise (SerfError [PStr "boom"] []) (consume (spawn serf (asked init)))
  /\ process (consume (spawn serf (asked init)))
     = Some {| lifetime := lifespan serf |}
  /\ _state (consume (spawn serf (asked init))) = PNone.
Proof.
  cbv zeta. split; [reflexivity|]. split; [reflexivity|].
  split; [reflexivity|].
  exact (@start_raises_on_error_signal
           {| reports := [("error"%string, [PStr "boom"], [])];
              lifespan := None |}
           [PStr "boom"] [] [] init eq_refl eq_refl eq_refl).
Defined.

Lemma update_report_quiet (s : Lord) (p : Pipe) (v : pyval)
  (rest : list message) :
  pipe s = Some p -> inbox p = ("state"%string, [v], []) :: rest ->
  callbacks s = [] ->
  update s = Return tt (report v (consume s)).
Proof.
  intros P I C. rewrite (update_state_report_eq s P I).
  unfold run_callbacks. now rewrite callbacks_report, callbacks_consume, C.
Qed.

Lemma update_silent (s : Lord) :
  silent s ->
  exists s', update s = Return tt s' /\ silent s' /\ process s' = process s.
Proof.
  intros [N [C [p [P F]]]].
  destruct (inbox p) as [|m rest] eqn:I.
  - exists s. split; [now apply (update_idle s P)|].
    split; [|reflexivity]. split; [exact N|]. split; [exact C|].
    exists p. now rewrite I.
  - inversion F as [|m' rest' E F']; subst. unfold none_report in I.
    rewrite (@update_report_quiet s p PNone rest P I C).
    exists (consume s). split; [reflexivity|]. split.
    + split; [now rewrite state_consume|].
      split; [now rewrite callbacks_consume|].
      eexists. split; [exact (pipe_consume s P I)|exact F'].
    + unfold consume. now rewrite P.
Qed.

Lemma wait_for_state_silent (n : nat) (s : Lord) :
  silent s -> (pending s < n)%nat -> wait_for_state n s = Hang.
Proof.
  revert s. induction n as [|n IH]; intros s Q L; [lia|].
  simpl. unfold state, state_with. simpl.
  destruct (update_silent Q) as [s1 [U [Q1 _]]]. rewrite U. simpl.
  destruct Q1 as [N1 R1]. rewrite N1. simpl.
  destruct (Nat.eqb (pending s) 0) eqn:E; [reflexivity|].
  apply Nat.eqb_neq in E.
  assert (L1 : (pending s1 < pending s)%nat).
  { apply update_consumes; [lia|]. now rewrite U. }
  destruct (@update_silent s1 (conj N1 R1)) as [s2 [U2 [Q2 _]]].
  rewrite U2. simpl. apply IH; [exact Q2|].
  pose proof (@update_framed s1 s2) as F. rewrite U2 in F.
  specialize (F eq_refl). apply fr_pending in F. lia.
Qed.

(** X15.  [start(wait=True)] has no deadline.  On a Lord with no cached state
    and an empty callback table, when the spawned serf reports nothing, or
    nothing but [None], [start] never returns. *)
Theorem start_waits_for_ever (serf_class : Serf) (s : Lord) :
  has_live_process s = false ->
  _state s = PNone ->
  callbacks s = [] ->
  Forall (eq none_report) (reports serf_class) ->
  start serf_class true s = Hang.
Proof.
  intros L N C F.
  assert (W : forall s0, _state s0 = PNone -> callbacks s0 = [] ->
            wait_for_state (S (pending (spawn serf_class s0)))
              (spawn serf_class s0) = Hang).
  { intros s0 N0 C0. apply wait_for_state_silent; [|lia].
    split; [exact N0|]. split; [exact C0|].
    eexists. split; [reflexivity|exact F]. }
  unfold start, has_live_process in *.
  destruct (process s) as [p|]; [|now apply W].
  destruct (is_alive p) as [alive p']. simpl in L. subst alive.
  now apply W.
Qed.

Lemma start_waits_for_ever_witness :
  let serf := {| reports := [none_report; none_report]; lifespan := None |} in
  has_live_process init = false
  /\ _state init = PNone
  /\ callbacks init = []
  /\ Forall (eq none_report) (reports serf)
  /\ start serf true init = Hang.
Proof.
  cbv zeta.
  assert (F : Forall (eq none_report) [none_report; none_report])
    by (repeat constructor).
  split; [reflexivity|]. split; [reflexivity|]. split; [reflexivity|].
  split; [exact F|].
  exact (@start_waits_for_ever
           {| reports := [none_report; none_report]; lifespan := None |}
           init eq_refl eq_refl eq_refl F).
Defined.

(** ** [stop]: what the draining loop does *)

(** X16.  [stop(wait=True)] can raise.  With a process that is still alive
    when the draining loop begins and an error signal first on the pipe,
    [stop] raises the signal's [SerfError]: [exit] was sent, the process
    handle is not cleared. *)
Theorem stop_raises_on_error_signal (s : Lord) (p : Pipe) (args : pyargs)
  (kwargs : pykwargs) (rest : list message) :
  has_live_process s = true ->
  has_live_process (asked s) = true ->
  pipe s = Some p ->
  inbox p = ("error"%string, args, kwargs) :: rest ->
  exists s',
    stop true s = Raise (SerfError args kwargs) s'
    /\ process s' <> None
    /\ pipe s' = Some {| outbox := outbox p ++ [exit_message]; inbox := rest |}.
Proof.
  unfold has_live_process, asked, stop. intros L1 L2 P I.
  destruct (process s) as [[l]|]; [|discriminate].
  destruct l as [[|[|k]]|]; try discriminate; unfold is_alive; simpl;
    unfold send; simpl; rewrite P; simpl;
    match goal with
    | |- context [update ?x] =>
        rewrite (@update_eq x
                   {| outbox := outbox p ++ [exit_message]; inbox := inbox p |}
                   "error" args kwargs rest eq_refl I)
    end; simpl; eexists; (split; [reflexivity|]); simpl;
    (split; [discriminate|]); unfold consume; simpl; now rewrite I.
Qed.

Lemma stop_raises_on_error_signal_witness :
  let serf := {| reports := [("error"%string, [PStr "boom"], [])];
                 lifespan := None |} in
  let s := spawn serf init in
  let p := {| outbox := []; inbox := reports serf |} in
  has_live_process s = true
  /\ has_live_process (asked s) = true
  /\ pipe s = Some p
  /\ inbox p = ("error"%string, [PStr "boom"], []) :: []
  /\ exists s',
       stop true s = Raise (SerfError [PStr "boom"] []) s'
       /\ process s' <> None
       /\ pipe s' = Some {| outbox := outbox p ++ [exit_message];
                            inbox := [] |}.
Proof.
  cbv zeta. split; [reflexivity|]. split; [reflexivity|].
  split; [reflexivity|]. split; [reflexivity|].
  exact (@stop_raises_on_error_signal
           (spawn {| reports := [("error"%string, [PStr "boom"], [])];
                     lifespan := None |} init)
           _ [PStr "boom"] [] [] eq_refl eq_refl eq_refl eq_refl).
Defined.

(** X17.  The draining loop of [stop] runs while the process is alive, not
    while messages wait.  When the process exits as soon as it is told to,
    [stop(wait=True)] returns without a single [update]: what the serf wrote
    before exiting stays unread on the pipe and the cached state is what it
    was. *)
Theorem stop_leaves_unread_messages (s : Lord) (p : Pipe) :
  has_live_process s = true ->
  has_live_process (asked s) = false ->
  pipe s = Some p ->
  stop true s
  = Return tt
      (set_process None
         (set_pipe (Some {| outbox := outbox p ++ [exit_message];
                            inbox := inbox p |}) s)).
Proof.
  unfold has_live_process, asked, stop. intros L1 L2 P.
  destruct (process s) as [[l]|]; [|discriminate].
  destruct l as [[|[|k]]|]; try discriminate.
  unfold is_alive. simpl. unfold send. simpl. rewrite P. reflexivity.
Qed.

Lemma stop_leaves_unread_messages_witness :
  let serf := {| reports := [("state"%string, [PStr "exit"], [])];
                 lifespan := Some 1%nat |} in
  let s := spawn serf init in
  let p := {| outbox := []; inbox := reports serf |} in
  has_live_process s = true
  /\ has_live_process (asked s) = false
  /\ pipe s = Some p
  /\ stop true s
     = Return tt
         (set_process None
            (set_pipe (Some {| outbox := outbox p ++ [exit_message];
                               inbox := inbox p |}) s)).
Proof.
  cbv zeta. split; [reflexivity|]. split; [reflexivity|].
  split; [reflexivity|].
  exact (@stop_leaves_unread_messages
           (spawn {| reports := [("state"%string, [PStr "exit"], [])];
                     lifespan := Some 1%nat |} init)
           _ eq_refl eq_refl eq_refl).
Defined.

Lemma drain_until_dead_immortal (n : nat) (s : Lord) :
  quiet s -> process s = Some {| lifetime := None |} ->
  (pending s < n)%nat -> drain_until_dead n s = Hang.
Proof.
  revert s. induction n as [|n IH]; intros s Q P L; [lia|].
  simpl. rewrite P. unfold is_alive. simpl.
  set (s1 := set_process (Some {| lifetime := None |}) s).
  assert (Q1 : quiet s1) by exact Q.
  destruct (update_quiet Q1) as [s2 [U [Q2 P2]]]. rewrite U. simpl.
  destruct (pending s1) eqn:E; [reflexivity|].
  apply IH; [exact Q2|exact P2|].
  assert (L1 : (pending s2 < pending s1)%nat).
  { apply update_consumes; [lia|]. now rewrite U. }
  assert (pending s1 = pending s) by reflexivity. lia.
Qed.

(** X18.  [stop(wait=True)] has no deadline either, and [__del__] is
    [stop(wait=True)].  With a process that never exits, an empty callback
    table and nothing but state reports on the pipe, [stop] reads them all
    and then spins for ever; so does dropping the Lord. *)
Theorem stop_waits_for_ever (s : Lord) :
  process s = Some {| lifetime := None |} ->
  quiet s ->
  stop true s = Hang /\ __del__ s = Hang.
Proof.
  intros P [C [p [Q F]]].
  assert (H : stop true s = Hang).
  { unfold stop. rewrite P. unfold is_alive. simpl. unfold send. simpl.
    rewrite Q. cbn [bind]. set (s1 := set_pipe _ _).
    rewrite (@drain_until_dead_immortal (drain_bound s1) s1).
    - reflexivity.
    - split; [exact C|]. eexists. split; [reflexivity|exact F].
    - reflexivity.
    - unfold drain_bound. simpl. lia. }
  split; [exact H|exact H].
Qed.

Lemma stop_waits_for_ever_witness :
  let serf := {| reports := [("state"%string, [PStr "ready"], [])];
                 lifespan := None |} in
  let s := spawn serf init in
  process s = Some {| lifetime := None |}
  /\ quiet s
  /\ stop true s = Hang
  /\ __del__ s = Hang.
Proof.
  cbv zeta.
  assert (Q : quiet (spawn {| reports := [("state"%string, [PStr "ready"], [])];
                              lifespan := None |} init)).
  { split; [reflexivity|]. eexists. split; [reflexivity|].
    constructor; [|constructor]. exists (PStr "ready"). reflexivity. }
  split; [reflexivity|]. split; [exact Q|].
  exact (@stop_waits_for_ever
           (spawn {| reports := [("state"%string, [PStr "ready"], [])];
                     lifespan := None |} init) eq_refl Q).
Defined.

(** X19.  A [start] that comes after [stop(wait=False)] while the process is
    still alive does nothing: no process is spawned and the Lord keeps the
    pipe of the serf it has just told to exit. *)
Theorem start_after_stop_nowait_does_nothing (serf_class : Serf) (wait : bool)
  (s : Lord) (p : Pipe) :
  has_live_process s = true ->
  has_live_process (asked s) = true ->
  pipe s = Some p ->
  exists s1,
    stop false s = Return tt s1
    /\ start serf_class wait s1 = Return tt (asked s1)
    /\ pipe (asked s1)
       = Some {| outbox := outbox p ++ [exit_message]; inbox := inbox p |}.
Proof.
  unfold has_live_process, asked, stop, start. intros L1 L2 P.
  destruct (process s) as [[l]|]; [|discriminate].
  destruct l as [[|[|k]]|]; try discriminate; unfold is_alive; simpl;
    unfold send; simpl; rewrite P; simpl;
    eexists; (split; [reflexivity|]); simpl; split; reflexivity.
Qed.

Lemma start_after_stop_nowait_does_nothing_witness :
  let serf := {| reports := []; lifespan := Some 3%nat |} in
  let s := spawn serf init in
  let p := {| outbox := []; inbox := [] |} in
  has_live_process s = true
  /\ has_live_process (asked s) = true
  /\ pipe s = Some p
  /\ exists s1,
       stop false s = Return tt s1
       /\ start serf true s1 = Return tt (asked s1)
       /\ pipe (asked s1)
          = Some {| outbox := outbox p ++ [exit_message]; inbox := inbox p |}.
Proof.
  cbv zeta. split; [reflexivity|]. split; [reflexivity|].
  split; [reflexivity|].
  exact (@start_after_stop_nowait_does_nothing
           {| reports := []; lifespan := Some 3%nat |} true
           (spawn {| reports := []; lifespan := Some 3%nat |} init)
           _ eq_refl eq_refl eq_refl).
Defined.

(** * Properties of the pure parts of ionode *)

Lemma upper_not_lower (c : ascii) : IONode.is_lower (IONode.upper c) = false.
Proof.
  unfold IONode.upper. destruct (IONode.is_lower c) eqn:L; [|exact L].
  unfold IONode.is_lower in *.
  apply andb_true_iff in L. destruct L as [A B].
  apply Nat.leb_le in A. apply Nat.leb_le in B.
  rewrite nat_ascii_embedding by lia.
  apply andb_false_iff. left. apply Nat.leb_gt. lia.
Qed.

Lemma upper_idempotent (c : ascii) :
  IONode.upper (IONode.upper c) = IONode.upper c.
Proof.
  unfold IONode.upper at 1. now rewrite upper_not_lower.
Qed.

Lemma upper_ascii (c : ascii) :
  IONode.is_lower c = true -> IONode.is_ascii (IONode.upper c) = true
                              /\ IONode.is_ascii c = true.
Proof.
  intros L. unfold IONode.upper. rewrite L.
  unfold IONode.is_lower, IONode.is_ascii in *.
  apply andb_true_iff in L. destruct L as [A B].
  apply Nat.leb_le in A. apply Nat.leb_le in B.
  rewrite nat_ascii_embedding by lia.
  split; apply Nat.ltb_lt; lia.
Qed.

(** X20.  Given an explicit module, [resolve_class] does not tell a node type
    from the same type with its first letter in upper case: in one module
    [camera] and [Camera] resolve alike.  With [module=None] the module is the
    one [resolve_module] imports for the node type, and the two resolve alike
    exactly as far as [resolve_module] gives the same answer for both
    names. *)
Theorem resolve_class_first_letter (c : ascii) (rest : string)
  (resolve_module : string -> exn + IONode.pymodule) :
  IONode.is_lower c = true ->
  (forall m : IONode.pymodule,
     IONode.resolve_class (String c rest) (Some m) resolve_module
     = IONode.resolve_class (String (IONode.upper c) rest) (Some m)
         resolve_module)
  /\ (resolve_module (String c rest)
      = resolve_module (String (IONode.upper c) rest) ->
      IONode.resolve_class (String c rest) None resolve_module
      = IONode.resolve_class (String (IONode.upper c) rest) None
          resolve_module)
  /\ (forall m m' : IONode.pymodule,
      resolve_module (String c rest) = inr m ->
      resolve_module (String (IONode.upper c) rest) = inr m' ->
      IONode.resolve_class (String c rest) None resolve_module
      = IONode.resolve_class (String c rest) (Some m) resolve_module
      /\ IONode.resolve_class (String (IONode.upper c) rest) None
           resolve_module
         = IONode.resolve_class (String c rest) (Some m') resolve_module).
Proof.
  intros L. destruct (upper_ascii c L) as [A B].
  assert (G : forall m : IONode.pymodule,
             IONode.resolve_class (String c rest) (Some m) resolve_module
             = IONode.resolve_class (String (IONode.upper c) rest) (Some m)
                 resolve_module).
  { intros m. unfold IONode.resolve_class, IONode.node_name.
    rewrite A, B, upper_idempotent. reflexivity. }
  split; [exact G|]. split.
  - intros E. unfold IONode.resolve_class, IONode.node_name.
    rewrite <- E, A, B, upper_idempotent. reflexivity.
  - intros m m' E E'. split.
    + unfold IONode.resolve_class. rewrite E. reflexivity.
    + rewrite (G m'). unfold IONode.resolve_class. rewrite E'. reflexivity.
Qed.

Lemma resolve_class_first_letter_witness :
  let m := [("CameraNode"%string, PFunc 1)] in
  let m' := [("CameraNode"%string, PFunc 2)] in
  let resolve_module := fun name : string =>
    if String.eqb name "camera" then inr m
    else if String.eqb name "Camera" then inr m'
    else inl ValueError in
  IONode.is_lower "c" = true
  /\ IONode.resolve_class "camera" (Some m) resolve_module
     = IONode.resolve_class "Camera" (Some m) resolve_module
  /\ IONode.resolve_class "camera" (Some m) resolve_module
     = IONode.Ok (PFunc 1)
  /\ IONode.resolve_class "camera" None resolve_module = IONode.Ok (PFunc 1)
  /\ IONode.resolve_class "Camera" None resolve_module = IONode.Ok (PFunc 2).
Proof.
  cbv zeta. split; [reflexivity|]. split; [|repeat split].
  exact (proj1 (@resolve_class_first_letter "c" "amera"
                  (fun name : string =>
                     if String.eqb name "camera"
                     then inr [("CameraNode"%string, PFunc 1)]
                     else if String.eqb name "Camera"
                          then inr [("CameraNode"%string, PFunc 2)]
                          else inl ValueError) eq_refl)
               [("CameraNode"%string, PFunc 1)]).
Defined.

(** X21.  What [resolve_class] returns is an attribute of the module whose
    name does not begin with a lower-case letter: a class named with a
    lower-case first letter is never found, under any node type. *)
Theorem resolve_class_never_lower_case (node_type : string)
  (m : IONode.pymodule) (resolve_module : string -> exn + IONode.pymodule)
  (cls : pyval) :
  IONode.resolve_class node_type (Some m) resolve_module = IONode.Ok cls ->
  exists c tail,
    kw_get (String c tail) m = Some cls /\ IONode.is_lower c = false.
Proof.
  unfold IONode.resolve_class, IONode.node_name.
  destruct node_type as [|c rest]; [discriminate|].
  destruct (IONode.is_ascii c); [|discriminate]. simpl.
  destruct (kw_get _ m) as [v|] eqn:K; [|discriminate].
  intros H. inversion H; subst.
  exists (IONode.upper c), (rest ++ "Node")%string.
  split; [exact K|apply upper_not_lower].
Qed.

Lemma resolve_class_never_lower_case_witness :
  let m := [("cameraNode"%string, PFunc 1); ("CameraNode"%string, PFunc 2)] in
  IONode.resolve_class "camera" (Some m) (fun _ => inl ValueError)
  = IONode.Ok (PFunc 2)
  /\ exists c tail,
       kw_get (String c tail) m = Some (PFunc 2) /\ IONode.is_lower c = false.
Proof.
  cbv zeta. split; [reflexivity|].
  exact (@resolve_class_never_lower_case "camera"
           [("cameraNode"%string, PFunc 1); ("CameraNode"%string, PFunc 2)]
           (fun _ => inl ValueError) (PFunc 2) eq_refl).
Defined.

Lemma split_on_single (sep : ascii) (tok : string) :
  IONode.any_char (fun c => Ascii.eqb c sep) tok = false ->
  IONode.split_on sep tok = [tok].
Proof.
  induction tok as [|c rest IH]; simpl; [reflexivity|].
  intros H. apply orb_false_iff in H. destruct H as [E R].
  rewrite E, (IH R). reflexivity.
Qed.

Lemma split_on_nonempty (sep : ascii) (s : string) :
  IONode.split_on sep s <> [].
Proof.
  destruct s as [|c rest]; simpl; [discriminate|].
  destruct (Ascii.eqb c sep); [discriminate|].
  destruct (IONode.split_on sep rest); discriminate.
Qed.

Lemma split_on_app (sep : ascii) (host tok : string) :
  IONode.any_char (fun c => Ascii.eqb c sep) tok = false ->
  IONode.split_on sep (host ++ String sep tok)
  = IONode.split_on sep host ++ [tok].
Proof.
  intros T. induction host as [|c rest IH]; simpl.
  - now rewrite Ascii.eqb_refl, (split_on_single sep tok T).
  - rewrite IH. destruct (Ascii.eqb c sep); [reflexivity|].
    pose proof (split_on_nonempty sep rest) as N.
    destruct (IONode.split_on sep rest); [contradiction|reflexivity].
Qed.

Lemma join_cons (sep tok : string) (rest : list string) :
  rest <> [] ->
  IONode.join sep (tok :: rest) = (tok ++ sep ++ IONode.join sep rest)%string.
Proof.
  intros N. destruct rest; [contradiction|reflexivity].
Qed.

Lemma join_split_app (sep : ascii) (host x : string) :
  IONode.join (String sep "") (IONode.split_on sep host ++ [x])
  = (host ++ String sep x)%string.
Proof.
  assert (NE : forall l : list string, l ++ [x] <> [])
    by (intros [|? ?]; discriminate).
  induction host as [|c rest IH]; [reflexivity|].
  cbn [IONode.split_on].
  destruct (Ascii.eqb c sep) eqn:E.
  - apply Ascii.eqb_eq in E. subst c.
    rewrite <- app_comm_cons, (join_cons _ _ (NE _)), IH. reflexivity.
  - pose proof (split_on_nonempty sep rest) as N.
    destruct (IONode.split_on sep rest) as [|tok toks]; [contradiction|].
    rewrite <- app_comm_cons, (join_cons _ _ (NE _)).
    rewrite <- app_comm_cons, (join_cons _ _ (NE _)) in IH.
    transitivity
      (String c (tok ++ String sep ""
                 ++ IONode.join (String sep "") (toks ++ [x])))%string;
      [reflexivity|].
    now rewrite IH.
Qed.

Lemma digit_facts (c : ascii) :
  IONode.is_digit c = true ->
  IONode.is_lenient c = false /\ Ascii.eqb c ":" = false.
Proof.
  unfold IONode.is_digit, IONode.is_lenient. intros D.
  apply andb_true_iff in D. destruct D as [A B].
  apply Nat.leb_le in A. apply Nat.leb_le in B. split.
  - cbv zeta.
    repeat match goal with
           | |- context [(?a <=? ?b)%nat] => destruct (Nat.leb_spec a b)
           | |- context [(?a =? ?b)%nat] => destruct (Nat.eqb_spec a b)
           end; simpl; try reflexivity; lia.
  - destruct (Ascii.eqb c ":") eqn:E; [|reflexivity].
    apply Ascii.eqb_eq in E. subst c.
    change (nat_of_ascii ":") with 58%nat in B. lia.
Qed.

Lemma digits_facts (s : string) :
  IONode.all_chars IONode.is_digit s = true ->
  IONode.any_char IONode.is_lenient s = false
  /\ IONode.any_char (fun c => Ascii.eqb c ":") s = false.
Proof.
  induction s as [|c rest IH]; simpl; [split; reflexivity|].
  intros H. apply andb_true_iff in H. destruct H as [D R].
  destruct (digit_facts c D) as [L C]. destruct (IH R) as [L' C'].
  now rewrite L, C, L', C'.
Qed.

Lemma pub_address_tokens (host tok : string) :
  IONode.any_char (fun c => Ascii.eqb c ":") tok = false ->
  IONode.pub_address (host ++ ":" ++ tok)
  = match IONode.py_int tok with
    | IONode.Ok port =>
        IONode.Ok (host ++ ":" ++ IONode.py_str (port + 100))%string
    | IONode.Error e => IONode.Error e
    | IONode.Unmodelled => IONode.Unmodelled
    end
  /\ IONode.pub_address tok
     = match IONode.py_int tok with
       | IONode.Ok port => IONode.Ok (IONode.py_str (port + 100))
       | IONode.Error e => IONode.Error e
       | IONode.Unmodelled => IONode.Unmodelled
       end.
Proof.
  intros T. unfold IONode.pub_address. split.
  - change (host ++ ":" ++ tok)%string with (host ++ String ":" tok)%string.
    rewrite (split_on_app ":" host tok T), last_last, removelast_last.
    destruct (IONode.py_int tok); try reflexivity.
    now rewrite (join_split_app ":" host).
  - rewrite (split_on_single ":" tok T). simpl.
    destruct (IONode.py_int tok); reflexivity.
Qed.

(** X22.  The publishing address of a node is its address with [100] added
    to the port: for an address that ends in a colon and a port written in
    digits, everything up to the last colon is kept as it is (scheme, host,
    the colons of an IPv6 host) and the port is replaced by the decimal
    writing of port plus 100.  An address that is digits only is taken whole
    as the port. *)
Theorem pub_address_adds_100 (host digits : string) :
  IONode.all_chars IONode.is_digit digits = true ->
  digits <> EmptyString ->
  (String.length digits <= 4000)%nat ->
  IONode.pub_address (host ++ ":" ++ digits)
  = IONode.Ok
      (host ++ ":" ++ IONode.py_str (IONode.digits_value 0 digits + 100))%string
  /\ IONode.pub_address digits
     = IONode.Ok (IONode.py_str (IONode.digits_value 0 digits + 100)).
Proof.
  intros D N L. destruct (digits_facts digits D) as [Le C].
  assert (I : IONode.py_int digits = IONode.Ok (IONode.digits_value 0 digits)).
  { unfold IONode.py_int. rewrite Le, D.
    destruct (Nat.ltb_spec 4000 (String.length digits)); [lia|].
    destruct (String.eqb_spec digits ""); [contradiction|reflexivity]. }
  destruct (pub_address_tokens host digits C) as [A B].
  rewrite A, B, I. split; reflexivity.
Qed.

Lemma pub_address_adds_100_witness :
  IONode.all_chars IONode.is_digit "5555" = true
  /\ "5555"%string <> EmptyString
  /\ (String.length "5555" <= 4000)%nat
  /\ IONode.pub_address "tcp://127.0.0.1:5555" = IONode.Ok "tcp://127.0.0.1:5655"%string
  /\ IONode.pub_address "5555" = IONode.Ok "5655"%string.
Proof.
  assert (N : "5555"%string <> EmptyString) by discriminate.
  assert (L : (String.length "5555" <= 4000)%nat) by (simpl; lia).
  split; [reflexivity|]. split; [exact N|]. split; [exact L|].
  exact (@pub_address_adds_100 "tcp://127.0.0.1" "5555" eq_refl N L).
Defined.

(** X23.  A port that is not a number makes the computation of the
    publishing address raise [ValueError]: so does an address that ends in a
    colon, one whose last part has a letter in it, and one without a colon
    that is not a number, such as a bare host name. *)
Theorem pub_address_port_not_a_number (host tok : string) :
  IONode.any_char (fun c => Ascii.eqb c ":") tok = false ->
  IONode.any_char IONode.is_lenient tok = false ->
  (String.length tok <= 4000)%nat ->
  tok = EmptyString \/ IONode.all_chars IONode.is_digit tok = false ->
  IONode.pub_address (host ++ ":" ++ tok) = IONode.Error ValueError
  /\ IONode.pub_address tok = IONode.Error ValueError.
Proof.
  intros C Le L B.
  assert (I : IONode.py_int tok = IONode.Error ValueError).
  { unfold IONode.py_int. rewrite Le.
    destruct (Nat.ltb_spec 4000 (String.length tok)); [lia|].
    destruct B as [-> | ->]; reflexivity. }
  destruct (pub_address_tokens host tok C) as [A B'].
  rewrite A, B', I. split; reflexivity.
Qed.

Lemma pub_address_port_not_a_number_witness :
  IONode.any_char (fun c => Ascii.eqb c ":") "localhost" = false
  /\ IONode.any_char IONode.is_lenient "localhost" = false
  /\ (String.length "localhost" <= 4000)%nat
  /\ IONode.all_chars IONode.is_digit "localhost" = false
  /\ IONode.pub_address "tcp://host:localhost" = IONode.Error ValueError
  /\ IONode.pub_address "localhost" = IONode.Error ValueError.
Proof.
  assert (L : (String.length "localhost" <= 4000)%nat) by (simpl; lia).
  split; [reflexivity|]. split; [reflexivity|]. split; [exact L|].
  split; [reflexivity|].
  exact (@pub_address_port_not_a_number "tcp://host" "localhost"
           eq_refl eq_refl L (or_intror eq_refl)).
Defined.
